(** * MatrixQi_News: the ingest and read pipelines of [app.py]

    A shallow embedding of [normalize_link], [normalize_title],
    [store_news] and [fetch_news], and the properties of the
    specification that were checked against them.

    Python's [str] is modelled on its ASCII fragment: the text that
    comes in (a link, a title, a query argument) is a [string] of ASCII
    characters, and [lower] and [strip] act as Python's do on ASCII
    text.  Decoding the percent escapes of a query can give characters
    outside ASCII: such a text is held as its UTF-8 bytes, which is also
    what [quote_plus] escapes.  The functions of [urllib.parse] the code
    calls are transcribed from CPython 3.12's [Lib/urllib/parse.py]; the
    address validation of a bracketed host (which differs between
    CPython releases) is a parameter, [check_bracketed_host]. *)

From Stdlib Require Import ZArith NArith Ascii String List Bool Lia.
From Stdlib Require Import DecimalString.
From stdpp Require Import base gmap sets list strings.

Local Open Scope Z_scope.
#[local] Set Warnings "-register-all".

(* ================================================================= *)
(** ** Python strings *)

Definition ord (c : ascii) : Z := Z.of_N (N_of_ascii c).

Definition in_range (lo hi : Z) (c : ascii) : bool :=
  (lo <=? ord c) && (ord c <=? hi).

Definition is_upper (c : ascii) : bool := in_range 65 90 c.
Definition is_lower (c : ascii) : bool := in_range 97 122 c.
Definition is_alpha (c : ascii) : bool := is_upper c || is_lower c.
Definition is_digit (c : ascii) : bool := in_range 48 57 c.

(** [str.isspace] on ASCII: TAB, LF, VT, FF, CR, the separators
    FS, GS, RS, US and the space. *)
Definition is_space (c : ascii) : bool :=
  in_range 9 13 c || in_range 28 32 c.

Definition char_eqb (a b : ascii) : bool := Ascii.eqb a b.

Definition lower_char (c : ascii) : ascii :=
  if is_upper c then ascii_of_N (N_of_ascii c + 32) else c.

(** [s.lower()] *)
Fixpoint lower (s : string) : string :=
  match s with
  | EmptyString => EmptyString
  | String c r => String (lower_char c) (lower r)
  end.

(** [s.lstrip(chars)] for the characters satisfying [p]. *)
Fixpoint lstrip_where (p : ascii -> bool) (s : string) : string :=
  match s with
  | EmptyString => EmptyString
  | String c r => if p c then lstrip_where p r else s
  end.

(** [s.rstrip(chars)] for the characters satisfying [p]. *)
Fixpoint rstrip_where (p : ascii -> bool) (s : string) : string :=
  match s with
  | EmptyString => EmptyString
  | String c r =>
      match rstrip_where p r with
      | EmptyString => if p c then EmptyString else String c EmptyString
      | r' => String c r'
      end
  end.

(** [s.strip()] *)
Definition strip (s : string) : string :=
  rstrip_where is_space (lstrip_where is_space s).

(** [s.startswith(pre)] *)
Fixpoint startswith (pre s : string) : bool :=
  match pre, s with
  | EmptyString, _ => true
  | String a pre', String b s' => char_eqb a b && startswith pre' s'
  | String _ _, EmptyString => false
  end.

(** [s.endswith(c)] for a single character [c]. *)
Fixpoint endswith_char (c : ascii) (s : string) : bool :=
  match s with
  | EmptyString => false
  | String a EmptyString => char_eqb a c
  | String _ r => endswith_char c r
  end.

(** [c in s] *)
Fixpoint contains (c : ascii) (s : string) : bool :=
  match s with
  | EmptyString => false
  | String a r => char_eqb a c || contains c r
  end.

(** [s.partition(c)]: the text before the first [c] and, when there is
    one, the text after it. *)
Fixpoint partition (c : ascii) (s : string) : string * option string :=
  match s with
  | EmptyString => (EmptyString, None)
  | String a r =>
      if char_eqb a c then (EmptyString, Some r)
      else let '(h, t) := partition c r in (String a h, t)
  end.

(** [s.rpartition(c)[2]]: the text after the last [c], all of [s] when
    there is none. *)
Fixpoint after_last (c : ascii) (s : string) : string :=
  match s with
  | EmptyString => EmptyString
  | String a r =>
      if contains c r then after_last c r
      else if char_eqb a c then r else s
  end.

(** [s.split(c)] *)
Fixpoint split_on (c : ascii) (s : string) : list string :=
  match s with
  | EmptyString => [EmptyString]
  | String a r =>
      if char_eqb a c then EmptyString :: split_on c r
      else match split_on c r with
           | [] => [String a EmptyString]
           | w :: ws => String a w :: ws
           end
  end.

(** [sep.join(parts)] *)
Fixpoint join (sep : string) (parts : list string) : string :=
  match parts with
  | [] => EmptyString
  | [w] => w
  | w :: ws => w +:+ sep +:+ join sep ws
  end.

(** [s.replace(c, t)] for a single character [c]. *)
Fixpoint replace_char (c : ascii) (t : string) (s : string) : string :=
  match s with
  | EmptyString => EmptyString
  | String a r =>
      if char_eqb a c then t +:+ replace_char c t r
      else String a (replace_char c t r)
  end.

(** The characters of [s] that do not satisfy [p]. *)
Fixpoint remove_where (p : ascii -> bool) (s : string) : string :=
  match s with
  | EmptyString => EmptyString
  | String a r => if p a then remove_where p r else String a (remove_where p r)
  end.

Fixpoint all_chars (p : ascii -> bool) (s : string) : bool :=
  match s with
  | EmptyString => true
  | String a r => p a && all_chars p r
  end.

(** [s.split()]: the maximal runs of non-whitespace characters.
    [cur] is the run being read, if one has started. *)
Fixpoint words_from (cur : option string) (s : string) : list string :=
  match s with
  | EmptyString => match cur with Some w => [w] | None => [] end
  | String a r =>
      if is_space a then
        match cur with
        | Some w => w :: words_from None r
        | None => words_from None r
        end
      else
        words_from (Some (match cur with
                          | Some w => w +:+ String a EmptyString
                          | None => String a EmptyString
                          end)) r
  end.

Definition split_whitespace (s : string) : list string := words_from None s.

(** Truth value of a [str]. *)
Definition truthy (s : string) : bool :=
  match s with EmptyString => false | _ => true end.

(* ================================================================= *)
(** ** [urllib.parse] *)

Record ParseResult := {
  scheme : string;
  netloc : string;
  path : string;
  params : string;
  query : string;
  fragment : string
}.

(** A query dictionary: keys in insertion order, each with the list of
    its values. *)
Definition qdict := list (string * list string).

Definition C0_control_or_space (c : ascii) : bool := ord c <=? 32.

Definition unsafe_url_byte (c : ascii) : bool :=
  char_eqb c "009" || char_eqb c "013" || char_eqb c "010".

Definition scheme_char (c : ascii) : bool :=
  is_alpha c || is_digit c || char_eqb c "+" || char_eqb c "-" || char_eqb c ".".

Definition first_is_alpha (s : string) : bool :=
  match s with String c _ => is_alpha c | EmptyString => false end.

(** The [scheme:] prefix of [urlsplit], when there is one. *)
Definition split_scheme (url : string) : string * string :=
  match partition ":" url with
  | (pre, Some rest) =>
      if truthy pre && first_is_alpha url && all_chars scheme_char pre
      then (lower pre, rest)
      else (EmptyString, url)
  | (_, None) => (EmptyString, url)
  end.

Definition netloc_delim (c : ascii) : bool :=
  char_eqb c "/" || char_eqb c "?" || char_eqb c "#".

(** [(s[:i], s[i:])] for the first [i] with [p s[i]]. *)
Fixpoint span_until (p : ascii -> bool) (s : string) : string * string :=
  match s with
  | EmptyString => (EmptyString, EmptyString)
  | String a r =>
      if p a then (EmptyString, s)
      else let '(h, t) := span_until p r in (String a h, t)
  end.

Definition after_first (c : ascii) (s : string) : string :=
  match partition c s with (_, Some t) => t | (_, None) => EmptyString end.

Definition uses_params : list string :=
  [""; "ftp"; "hdl"; "prospero"; "http"; "imap"; "https"; "shttp"; "rtsp";
   "rtspu"; "sip"; "sips"; "mms"; "sftp"; "tel"].

Definition in_list (s : string) (l : list string) : bool :=
  existsb (String.eqb s) l.

(** [_splitparams]: the [;params] of the last path segment. *)
Fixpoint splitparams (url : string) : string * string :=
  match url with
  | EmptyString => (EmptyString, EmptyString)
  | String a r =>
      if contains "/" r then
        let '(h, t) := splitparams r in (String a h, t)
      else if char_eqb a "/" then
        match partition ";" r with
        | (h, Some t) => (String a h, t)
        | (_, None) => (url, EmptyString)
        end
      else
        match partition ";" url with
        | (h, Some t) => (h, t)
        | (_, None) => (url, EmptyString)
        end
  end.

Definition hex_val (c : ascii) : option Z :=
  if is_digit c then Some (ord c - 48)
  else if in_range 97 102 c then Some (ord c - 87)
  else if in_range 65 70 c then Some (ord c - 55)
  else None.

Definition chr (z : Z) : ascii := ascii_of_N (Z.to_N z).

(** [unquote_to_bytes]: every [%XX] with two hexadecimal digits becomes
    the byte of that code; any other [%] stays. *)
Fixpoint unquote_to_bytes (s : string) : string :=
  match s with
  | EmptyString => EmptyString
  | String c r =>
      if char_eqb c "%" then
        match r with
        | String h1 (String h2 r') =>
            match hex_val h1, hex_val h2 with
            | Some a, Some b => String (chr (16 * a + b)) (unquote_to_bytes r')
            | _, _ => String c (unquote_to_bytes r)
            end
        | _ => String c (unquote_to_bytes r)
        end
      else String c (unquote_to_bytes r)
  end.

(** U+FFFD, the replacement character, in UTF-8. *)
Definition replacement_character : string :=
  String (chr 239) (String (chr 191) (String (chr 189) EmptyString)).

(** What a UTF-8 sequence that starts with the byte [c] needs: the
    number of continuation bytes, and the range of the first of them
    (narrower than [80..BF] where an overlong form, a surrogate or a
    code point above U+10FFFF would start).  [None]: no sequence starts
    with [c]. *)
Definition utf8_lead (c : ascii) : option (nat * Z * Z) :=
  if in_range 194 223 c then Some (1%nat, 128, 191)
  else if in_range 224 224 c then Some (2%nat, 160, 191)
  else if in_range 237 237 c then Some (2%nat, 128, 159)
  else if in_range 225 239 c then Some (2%nat, 128, 191)
  else if in_range 240 240 c then Some (3%nat, 144, 191)
  else if in_range 244 244 c then Some (3%nat, 128, 143)
  else if in_range 241 243 c then Some (3%nat, 128, 191)
  else None.

(** A sequence the decoder is in the middle of: the bytes read so far,
    the number of continuation bytes still to come and the range of the
    next one. *)
Record utf8_pending := {
  pending_bytes : string;
  pending_count : nat;
  next_lo : Z;
  next_hi : Z
}.

(** [bytes.decode('utf-8', 'replace')], the result again in UTF-8: each
    well-formed sequence is kept, each maximal ill-formed run of bytes
    (a byte that starts nothing, or the well-formed beginning of a
    sequence that the next byte or the end of the text breaks) becomes
    one U+FFFD. *)
Fixpoint utf8_decode (pending : option utf8_pending) (s : string) : string :=
  match s with
  | EmptyString =>
      match pending with
      | Some _ => replacement_character
      | None => EmptyString
      end
  | String c r =>
      let start :=
        if ord c <? 128 then String c (utf8_decode None r)
        else
          match utf8_lead c with
          | Some (n, lo, hi) =>
              utf8_decode
                (Some {| pending_bytes := String c EmptyString;
                         pending_count := n; next_lo := lo; next_hi := hi |})
                r
          | None => replacement_character +:+ utf8_decode None r
          end in
      match pending with
      | None => start
      | Some p =>
          if in_range (next_lo p) (next_hi p) c then
            match pending_count p with
            | S (S n) =>
                utf8_decode
                  (Some {| pending_bytes := pending_bytes p +:+ String c EmptyString;
                           pending_count := S n;
                           next_lo := 128; next_hi := 191 |})
                  r
            | _ => pending_bytes p +:+ String c (utf8_decode None r)
            end
          else replacement_character +:+ start
      end
  end.

(** The decoder at a byte where no sequence is pending. *)
Definition utf8_start (c : ascii) (r : string) : string :=
  if ord c <? 128 then String c (utf8_decode None r)
  else
    match utf8_lead c with
    | Some (n, lo, hi) =>
        utf8_decode
          (Some {| pending_bytes := String c EmptyString;
                   pending_count := n; next_lo := lo; next_hi := hi |})
          r
    | None => replacement_character +:+ utf8_decode None r
    end.

Definition decode_utf8_replace (s : string) : string := utf8_decode None s.

(** [unquote(s)] with the default [encoding='utf-8'] and
    [errors='replace'], on ASCII text: the escapes are decoded to bytes
    and the bytes read as UTF-8, so that an escape that is no UTF-8
    becomes U+FFFD. *)
Definition unquote (s : string) : string :=
  decode_utf8_replace (unquote_to_bytes s).

Definition always_safe (c : ascii) : bool :=
  is_alpha c || is_digit c || char_eqb c "_" || char_eqb c "."
  || char_eqb c "-" || char_eqb c "~".

Definition hex_digit (z : Z) : ascii :=
  if z <? 10 then chr (48 + z) else chr (55 + z).

(** [quote_plus] with the default [safe=''] *)
Fixpoint quote_plus (s : string) : string :=
  match s with
  | EmptyString => EmptyString
  | String c r =>
      if always_safe c then String c (quote_plus r)
      else if char_eqb c " " then String "+" (quote_plus r)
      else String "%" (String (hex_digit (ord c / 16))
                         (String (hex_digit (ord c mod 16)) (quote_plus r)))
  end.

Definition plus_to_space (s : string) : string :=
  replace_char "+" " " s.

(** [parse_qsl(qs, keep_blank_values=True)] *)
Definition parse_qsl (qs : string) : list (string * string) :=
  flat_map
    (fun name_value =>
       if truthy name_value then
         let '(n, v) := partition "=" name_value in
         [(unquote (plus_to_space n),
           unquote (plus_to_space (default EmptyString v)))]
       else [])
    (split_on "&" qs).

Fixpoint dict_append (k v : string) (d : qdict) : qdict :=
  match d with
  | [] => [(k, [v])]
  | (k', vs) :: d' =>
      if String.eqb k' k then (k', vs ++ [v]) :: d'
      else (k', vs) :: dict_append k v d'
  end.

(** [parse_qs(qs, keep_blank_values=True)] *)
Definition parse_qs (qs : string) : qdict :=
  fold_left (fun d nv => dict_append (fst nv) (snd nv) d) (parse_qsl qs) [].

(** [urlencode(d, doseq=True)] *)
Definition urlencode (d : qdict) : string :=
  join "&"
    (flat_map
       (fun kv => map (fun v => quote_plus (fst kv) +:+ "=" +:+ quote_plus v)
                      (snd kv))
       d).

(** The [hostname] property of a parse result: [None] when the netloc
    has no host. *)
Definition hostname (p : ParseResult) : option string :=
  let hostinfo := after_last "@" (netloc p) in
  let host :=
    match partition "[" hostinfo with
    | (_, Some bracketed) => fst (partition "]" bracketed)
    | (_, None) => fst (partition ":" hostinfo)
    end in
  if truthy host then
    match partition "%" host with
    | (h, Some zone) => Some (lower h +:+ "%" +:+ zone)
    | (h, None) => Some (lower h)
    end
  else None.

Section Urlparse.

(** [_check_bracketed_host]: [true] when the text between the brackets
    of a netloc is accepted ([false]: [ValueError]). *)
Variable check_bracketed_host : string -> bool.

(** [urlsplit(url)]; [None] stands for the [ValueError] it raises. *)
Definition urlsplit (url0 : string) : option ParseResult :=
  let url := lstrip_where C0_control_or_space url0 in
  let url := remove_where unsafe_url_byte url in
  let '(sch, url) := split_scheme url in
  let '(nl, url) :=
    if startswith "//" url then
      match url with
      | String _ (String _ rest) => span_until netloc_delim rest
      | _ => (EmptyString, url)
      end
    else (EmptyString, url) in
  let has_open := contains "[" nl in
  let has_close := contains "]" nl in
  if (has_open && negb has_close) || (has_close && negb has_open) then None
  else if has_open && has_close
          && negb (check_bracketed_host (fst (partition "]" (after_first "[" nl))))
  then None
  else
    let '(url, frag) :=
      match partition "#" url with
      | (h, Some t) => (h, t)
      | (_, None) => (url, EmptyString)
      end in
    let '(url, qry) :=
      match partition "?" url with
      | (h, Some t) => (h, t)
      | (_, None) => (url, EmptyString)
      end in
    Some {| scheme := sch; netloc := nl; path := url; params := EmptyString;
            query := qry; fragment := frag |}.

(** [urlparse(url)] *)
Definition urlparse (url : string) : option ParseResult :=
  match urlsplit url with
  | None => None
  | Some r =>
      if in_list (scheme r) uses_params && contains ";" (path r) then
        let '(u, prm) := splitparams (path r) in
        Some {| scheme := scheme r; netloc := netloc r; path := u;
                params := prm; query := query r; fragment := fragment r |}
      else Some r
  end.

(* =============================================================== *)
(** ** The normalizers *)

Definition is_tracking_key (key : string) : bool :=
  let key_lower := lower key in
  startswith "utm_" key_lower
  || in_list key_lower ["fbclid"; "gclid"].

(** [del query_params[key]] *)
Definition dict_del (key : string) (d : qdict) : qdict :=
  List.filter (fun kv => negb (String.eqb (fst kv) key)) d.

(** The two loops over [query_params]: collect the tracking keys, then
    delete each of them. *)
Definition remove_tracking (query_params : qdict) : qdict :=
  let to_remove := List.filter is_tracking_key (map fst query_params) in
  fold_left (fun d key => dict_del key d) to_remove query_params.

(** [norm] as assembled before the trailing slashes are looked at. *)
Definition assemble (parsed : ParseResult) : string :=
  let new_query := urlencode (remove_tracking (parse_qs (query parsed))) in
  let norm := default EmptyString (hostname parsed) in
  let norm := if truthy (path parsed) then norm +:+ path parsed else norm in
  if truthy new_query then norm +:+ "?" +:+ new_query else norm.

Definition is_slash (c : ascii) : bool := char_eqb c "/".

Definition trim_trailing_slash (norm : string) : string :=
  if endswith_char "/" norm && (1 <? Z.of_nat (String.length norm))
  then rstrip_where is_slash norm
  else norm.

Definition prepare (raw : string) : string :=
  let url_str := strip raw in
  if startswith "//" url_str then "https:" +:+ url_str else url_str.

Definition normalize_link (raw : string) : string :=
  if negb (truthy raw) then EmptyString
  else
    let url_str := prepare raw in
    match urlparse url_str with
    | Some parsed => lower (trim_trailing_slash (assemble parsed))
    | None => lower (rstrip_where is_slash url_str)
    end.

Definition normalize_title (raw : string) : string :=
  if negb (truthy raw) then EmptyString
  else lower (strip (join " " (split_whitespace raw))).

End Urlparse.

(* ================================================================= *)
(** ** Values exchanged with the feed parser, the store and the client *)

(** The shapes [store_news] tells apart in a feed entry's fields. *)
Inductive pyval :=
| PNone
| PStr (s : string)
| PList (l : list pyval)
| PDict (d : list (string * pyval)).

Definition py_truth (v : pyval) : bool :=
  match v with
  | PNone => false
  | PStr s => truthy s
  | PList l => match l with [] => false | _ => true end
  | PDict d => match d with [] => false | _ => true end
  end.

(** [x or y] *)
Definition py_or (x y : pyval) : pyval := if py_truth x then x else y.

Fixpoint assoc {A} (k : string) (d : list (string * A)) : option A :=
  match d with
  | [] => None
  | (k', v) :: d' => if String.eqb k' k then Some v else assoc k d'
  end.

(** [d.get(k, '')] *)
Definition dict_get (k : string) (d : list (string * pyval)) : pyval :=
  default (PStr EmptyString) (assoc k d).

(** What [it.get(key)] returns for each key [store_news] reads; [None]
    and [PNone] stand for a missing key. *)
Record entry := {
  e_title : option string;
  e_link : option string;
  e_summary : pyval;
  e_description : pyval;
  e_content : pyval;
  e_subtitle : pyval;
  e_published : option string;
  e_updated : option string
}.

Record normalized_item := {
  title : string;
  link : string;
  description : string;
  date : string;
  norm_link : string;
  title_date_key : string
}.

(** A row handed to the batch insert. *)
Record new_row := {
  row_title : string;
  row_link : string;
  row_description : string;
  row_date : string
}.

(** A row of the [news] table; a [None] column is a null. *)
Record stored_row := {
  r_id : Z;
  r_title : option string;
  r_link : option string;
  r_description : option string;
  r_date : option string
}.

Inductive json :=
| JNull
| JInt (n : Z)
| JStr (s : string)
| JList (l : list json)
| JObj (fields : list (string * json)).

Record response := { status : Z; body : json }.

(** [jsonify(d)] with the default status. *)
Definition ok_response (fields : list (string * json)) : response :=
  {| status := 200; body := JObj fields |}.

Definition json_of_opt (o : option string) : json :=
  match o with Some s => JStr s | None => JNull end.

Definition json_of_row (r : stored_row) : json :=
  JObj [("id", JInt (r_id r)); ("title", json_of_opt (r_title r));
        ("link", json_of_opt (r_link r));
        ("description", json_of_opt (r_description r));
        ("date", json_of_opt (r_date r))].

Definition string_of_Z (z : Z) : string := NilZero.string_of_int (Z.to_int z).

(** The store as [store_news] sees it: the table, whether a ranged
    select starting at a given offset raises, and what a batch insert
    answers ([inl]: the exception's text, [inr]: the rows returned). *)
Record store := {
  table : list stored_row;
  select_error : nat -> option string;
  insert_exec : list new_row -> string + list stored_row
}.

Inductive store_event :=
| SelectRange (first last : nat)
| Insert (rows : list new_row).

(** What fetching and parsing the feed gives: an exception, or a
    response with its [ok] flag, status code and parsed entries. *)
Inductive feed_result :=
| FeedRaised (err : string)
| FeedResponse (ok : bool) (status_code : Z) (entries : list entry).

Record skip_counts := {
  duplicateLink : nat;
  duplicateTitleDate : nat;
  noLinkNoTitle : nat
}.

Record dedup_state := {
  existing_links_set : gset string;
  existing_title_date_set : gset string;
  to_insert : list new_row;
  skipped : skip_counts
}.

Definition json_of_skipped (s : skip_counts) : json :=
  JObj [("duplicateLink", JInt (Z.of_nat (duplicateLink s)));
        ("duplicateTitleDate", JInt (Z.of_nat (duplicateTitleDate s)));
        ("noLinkNoTitle", JInt (Z.of_nat (noLinkNoTitle s)))].

(* ================================================================= *)
(** ** The ingest pipeline: [store_news] *)

(** [d.get('value', '') or d.get('content', '')] *)
Definition value_or_content (d : list (string * pyval)) : pyval :=
  py_or (dict_get "value" d) (dict_get "content" d).

(** [summary] and [description]: a string, or an object with [value] or
    [content]. *)
Definition from_str_or_dict (v cur : pyval) : pyval :=
  match v with
  | PStr s => PStr s
  | PDict d => value_or_content d
  | _ => cur
  end.

Definition from_content (v cur : pyval) : pyval :=
  match v with
  | PList (first_content :: _) =>
      match first_content with
      | PDict d => value_or_content d
      | _ => cur
      end
  | PDict d => value_or_content d
  | _ => cur
  end.

Definition from_str (v cur : pyval) : pyval :=
  match v with PStr s => PStr s | _ => cur end.

Definition extract_description (it : entry) : pyval :=
  let description := PStr EmptyString in
  let description :=
    if py_truth (e_summary it) then from_str_or_dict (e_summary it) description
    else description in
  let description :=
    if negb (py_truth description) && py_truth (e_description it)
    then from_str_or_dict (e_description it) description else description in
  let description :=
    if negb (py_truth description) && py_truth (e_content it)
    then from_content (e_content it) description else description in
  if negb (py_truth description) && py_truth (e_subtitle it)
  then from_str (e_subtitle it) description else description.

Definition str_or_empty (o : option string) : string := default EmptyString o.

Definition strip_if_str (v : pyval) : string :=
  match v with PStr s => strip s | _ => EmptyString end.

Definition page_size : nat := 1000.

(** [supabase.table('news').select(...).range(first, last).execute()] *)
Definition select_range (st : store) (first : nat) : string + list stored_row :=
  match select_error st first with
  | Some err => inl err
  | None => inr (firstn page_size (skipn first (table st)))
  end.

(** The [while True] loop that pages through the table; [None] when a
    select raised.  [fuel] bounds the number of pages read. *)
Fixpoint fetch_pages (fuel : nat) (st : store) (offset : nat)
    (existing_rows : list stored_row) (tr : list store_event)
  : option (list stored_row) * list store_event :=
  let tr := tr ++ [SelectRange offset (offset + page_size - 1)%nat] in
  match select_range st offset with
  | inl _ => (None, tr)
  | inr batch =>
      match batch with
      | [] => (Some existing_rows, tr)
      | _ =>
          let existing_rows := existing_rows ++ batch in
          if (length batch <? page_size)%nat then (Some existing_rows, tr)
          else
            match fuel with
            | O => (Some existing_rows, tr)
            | S fuel' => fetch_pages fuel' st (offset + page_size)%nat existing_rows tr
            end
      end
  end.

(** The rows the deduplication works from: all pages, or nothing when a
    select raised. *)
Definition load_existing (st : store) : list stored_row * list store_event :=
  let '(rows, tr) := fetch_pages (length (table st)) st 0%nat [] [] in
  (default [] rows, tr).

Section Ingest.

Variable check_bracketed_host : string -> bool.

Definition normalize_entry (it : entry) : option normalized_item :=
  let title := str_or_empty (e_title it) in
  let link := str_or_empty (e_link it) in
  let description := extract_description it in
  let pub_date :=
    if truthy (str_or_empty (e_published it)) then str_or_empty (e_published it)
    else str_or_empty (e_updated it) in
  let norm_link := normalize_link check_bracketed_host link in
  let norm_title := normalize_title title in
  let title_date_key :=
    if truthy pub_date then norm_title +:+ "||" +:+ strip pub_date
    else EmptyString in
  if truthy title || truthy link then
    Some {| title := strip title; link := strip link;
            description := strip_if_str description;
            date := strip pub_date;
            norm_link := norm_link; title_date_key := title_date_key |}
  else None.

(** The loop that fills [normalized]. *)
Definition normalize_entries (items : list entry) : list normalized_item :=
  omap normalize_entry items.

(** One round of the loop over the existing rows. *)
Definition add_existing (st : dedup_state) (r : stored_row) : dedup_state :=
  let l := str_or_empty (r_link r) in
  let t := str_or_empty (r_title r) in
  let d := str_or_empty (r_date r) in
  let n_l := normalize_link check_bracketed_host l in
  let n_t := normalize_title t in
  let links :=
    if truthy n_l then {[n_l]} ∪ existing_links_set st
    else existing_links_set st in
  let title_dates :=
    if truthy n_t || truthy d then {[n_t +:+ "||" +:+ d]} ∪ existing_title_date_set st
    else existing_title_date_set st in
  {| existing_links_set := links; existing_title_date_set := title_dates;
     to_insert := to_insert st; skipped := skipped st |}.

Definition initial_state : dedup_state :=
  {| existing_links_set := ∅; existing_title_date_set := ∅; to_insert := [];
     skipped := {| duplicateLink := 0; duplicateTitleDate := 0;
                   noLinkNoTitle := 0 |} |}.

Definition build_sets (existing_rows : list stored_row) : dedup_state :=
  fold_left add_existing existing_rows initial_state.

End Ingest.

Definition row_of (it : normalized_item) : new_row :=
  {| row_title := title it; row_link := link it;
     row_description := description it; row_date := date it |}.

Definition count_duplicate_link (s : skip_counts) : skip_counts :=
  {| duplicateLink := S (duplicateLink s);
     duplicateTitleDate := duplicateTitleDate s;
     noLinkNoTitle := noLinkNoTitle s |}.

Definition count_duplicate_title_date (s : skip_counts) : skip_counts :=
  {| duplicateLink := duplicateLink s;
     duplicateTitleDate := S (duplicateTitleDate s);
     noLinkNoTitle := noLinkNoTitle s |}.

(** One round of the loop that decides which items to insert. *)
Definition decide_item (st : dedup_state) (it : normalized_item) : dedup_state :=
  if truthy (norm_link it) then
    if negb (bool_decide (norm_link it ∈ existing_links_set st)) then
      {| existing_links_set := {[norm_link it]} ∪ existing_links_set st;
         existing_title_date_set := existing_title_date_set st;
         to_insert := to_insert st ++ [row_of it];
         skipped := skipped st |}
    else
      {| existing_links_set := existing_links_set st;
         existing_title_date_set := existing_title_date_set st;
         to_insert := to_insert st;
         skipped := count_duplicate_link (skipped st) |}
  else if truthy (title_date_key it)
          && negb (bool_decide (title_date_key it ∈ existing_title_date_set st)) then
    {| existing_links_set := existing_links_set st;
       existing_title_date_set := {[title_date_key it]} ∪ existing_title_date_set st;
       to_insert := to_insert st ++ [row_of it];
       skipped := skipped st |}
  else
    if negb (truthy (norm_link it)) then
      {| existing_links_set := existing_links_set st;
         existing_title_date_set := existing_title_date_set st;
         to_insert := to_insert st;
         skipped := count_duplicate_title_date (skipped st) |}
    else st.

Definition dedupe (normalized : list normalized_item) (st : dedup_state) : dedup_state :=
  fold_left decide_item normalized st.

Definition no_items_response : response :=
  ok_response [("message", JStr "No items parsed from feed");
               ("fetched", JInt 0); ("inserted", JInt 0)].

Definition error_response (code : Z) (fields : list (string * json)) : response :=
  {| status := code; body := JObj fields |}.

Section StoreNews.

Variable check_bracketed_host : string -> bool.

(** The state of the deduplication after its loop, for the entries of
    a feed and the rows read from the store. *)
Definition decisions (items : list entry) (existing_rows : list stored_row)
  : dedup_state :=
  dedupe (normalize_entries check_bracketed_host items)
         (build_sets check_bracketed_host existing_rows).

(** [store_news()]: the response and the store calls made, in order. *)
Definition store_news (feed : feed_result) (st : store)
  : response * list store_event :=
  match feed with
  | FeedRaised err => (error_response 500 [("error", JStr err)], [])
  | FeedResponse ok status_code items =>
      if negb ok then
        (error_response 502
           [("error", JStr ("Failed to fetch feed (" +:+ string_of_Z status_code +:+ ")"))],
         [])
      else if (length items =? 0)%nat then (no_items_response, [])
      else
        let normalized := normalize_entries check_bracketed_host items in
        if (length normalized =? 0)%nat then (no_items_response, [])
        else
          let '(existing_rows, tr) := load_existing st in
          let fin := decisions items existing_rows in
          if (length (to_insert fin) =? 0)%nat then
            (ok_response [("message", JStr "No new items to insert");
                          ("fetchedCount", JInt (Z.of_nat (length normalized)));
                          ("skipped", json_of_skipped (skipped fin));
                          ("insertedCount", JInt 0)],
             tr)
          else
            match insert_exec st (to_insert fin) with
            | inl insert_err =>
                (error_response 500 [("error", JStr "Failed to insert into DB");
                                     ("detail", JStr insert_err)],
                 tr ++ [Insert (to_insert fin)])
            | inr inserted =>
                (ok_response [("message", JStr "Fetched feed and stored new items");
                              ("fetchedCount", JInt (Z.of_nat (length normalized)));
                              ("insertedCount", JInt (Z.of_nat (length inserted)));
                              ("inserted", JList (map json_of_row inserted));
                              ("skipped", json_of_skipped (skipped fin))],
                 tr ++ [Insert (to_insert fin)])
            end
  end.

End StoreNews.

(* ================================================================= *)
(** ** The read pipeline: [fetch_news] *)

(** Whitespace [int] skips around the digits of an ASCII string. *)
Definition int_space (c : ascii) : bool :=
  in_range 9 13 c || char_eqb c " ".

(** The digits of an integer literal, single underscores allowed between
    digits.  [after_digit] tells whether the previous character was one. *)
Fixpoint parse_digits (s : string) (acc : Z) (after_digit : bool) : option Z :=
  match s with
  | EmptyString => if after_digit then Some acc else None
  | String c r =>
      if is_digit c then parse_digits r (10 * acc + (ord c - 48)) true
      else if char_eqb c "_" && after_digit then parse_digits r acc false
      else None
  end.

(** The number of digits of a literal. *)
Fixpoint count_digits (s : string) : Z :=
  match s with
  | EmptyString => 0
  | String c r => (if is_digit c then 1 else 0) + count_digits r
  end.

(** [sys.get_int_max_str_digits()], which the code leaves at its
    default. *)
Definition int_max_str_digits : Z := 4300.

(** [int(s)] for a string of ASCII characters; [None] stands for the
    [ValueError], which is also raised for a literal of more than
    [int_max_str_digits] digits. *)
Definition py_int (s : string) : option Z :=
  let t := rstrip_where int_space (lstrip_where int_space s) in
  if int_max_str_digits <? count_digits t then None
  else
    match t with
    | String c r =>
        if char_eqb c "-" then Z.opp <$> parse_digits r 0 false
        else if char_eqb c "+" then parse_digits r 0 false
        else parse_digits t 0 false
    | EmptyString => None
    end.

(** [int(request.args.get(name, 0))] *)
Definition int_arg (arg : option string) : option Z :=
  match arg with
  | None => Some 0
  | Some s => py_int s
  end.

(** [l[i:]] *)
Definition slice_from {A} (l : list A) (i : Z) : list A :=
  let n := Z.of_nat (length l) in
  skipn (Z.to_nat (if i <? 0 then Z.max (n + i) 0 else Z.min i n)) l.

(** [l[:j]] *)
Definition slice_to {A} (l : list A) (j : Z) : list A :=
  let n := Z.of_nat (length l) in
  firstn (Z.to_nat (if j <? 0 then Z.max (n + j) 0 else Z.min j n)) l.

(** [date_str.replace('Z', '+00:00')] *)
Definition replace_Z (date_str : string) : string :=
  replace_char "Z" "+00:00" date_str.

Section ReadPipeline.

(** The date and time library, as [fetch_news] uses it.  A parser
    answers [None] where the code's [try] catches an exception or finds
    no date. *)
Variable datetime : Type.
(** the [published_parsed] of a one-item feed made of the date string,
    as a UTC [datetime] *)
Variable feed_published : string -> option datetime.
Variable fromisoformat : string -> option datetime.
Variable dateutil_parse : string -> option datetime.
Variable tzinfo_is_none : datetime -> bool.
Variable utc_localize : datetime -> datetime.
(** [dt.astimezone(tz).strftime('%Y-%m-%d')] for [tz] Asia/Kolkata *)
Variable kolkata_strftime : datetime -> option string.
(** [dt.replace(hour=0, minute=0, second=0, microsecond=0) - timedelta(days=1)] *)
Variable midnight_minus_one_day : datetime -> datetime.
(** the text of the [ValueError] that [int] raises on a string *)
Variable value_error_text : string -> string.

Definition to_kolkata_date_str (dt : datetime) : option string :=
  kolkata_strftime (if tzinfo_is_none dt then utc_localize dt else dt).

Definition localize_if_naive (parsed : datetime) : datetime :=
  if tzinfo_is_none parsed then utc_localize parsed else parsed.

Definition parse_row_date (date_str : option string) : option datetime :=
  match date_str with
  | None => None
  | Some s =>
      if negb (truthy s) then None
      else
        match feed_published s with
        | Some dt => Some dt
        | None =>
            match fromisoformat (replace_Z s) with
            | Some parsed => Some (localize_if_naive parsed)
            | None =>
                match dateutil_parse s with
                | Some parsed => Some (localize_if_naive parsed)
                | None => None
                end
            end
        end
  end.

(** The [kolkata_date] a row is annotated with. *)
Definition kolkata_date (r : stored_row) : option string :=
  match parse_row_date (r_date r) with
  | Some parsed => to_kolkata_date_str parsed
  | None => None
  end.

(** [[r for r in annotated if r.get('kolkata_date') == day]] *)
Definition rows_of_day (day : option string) (rows : list stored_row)
  : list stored_row :=
  filter (fun r => kolkata_date r = day) rows.

Definition today_str (now : datetime) : option string :=
  to_kolkata_date_str now.

Definition yesterday_str (now : datetime) : option string :=
  to_kolkata_date_str (midnight_minus_one_day now).

Definition apply_offset (offset : Z) (result : list stored_row) :=
  if offset =? 0 then result else slice_from result offset.

Definition apply_limit (limit : option Z) (result : list stored_row) :=
  match limit with
  | Some l => slice_to result l
  | None => result
  end.

(** The part of [fetch_news] after its arguments are read. [select] is
    what the query for the [FETCH_ROWS] newest rows gives. *)
Definition read_rows (limit : option Z) (offset : Z)
    (select : string + list stored_row) (now : datetime) : response :=
  match select with
  | inl error =>
      error_response 500 [("error", JStr "Failed to fetch news from DB");
                          ("detail", JStr error)]
  | inr rows =>
      let todays := rows_of_day (today_str now) rows in
      let '(todays, used_day) :=
        match todays with
        | [] => (rows_of_day (yesterday_str now) rows, "yesterday")
        | _ => (todays, "today")
        end in
      let result := apply_limit limit (apply_offset offset todays) in
      let news_list := map json_of_row result in
      ok_response
        [("requested_day", JStr used_day);
         ("day_date",
           json_of_opt (if String.eqb used_day "today" then today_str now
                        else yesterday_str now));
         ("count", JInt (Z.of_nat (length news_list)));
         ("news", JList news_list)]
  end.

Definition int_failure (s : option string) : response :=
  error_response 500 [("error", JStr (value_error_text (str_or_empty s)))].

(** [fetch_news()] for the query arguments [limit] and [offset]. *)
Definition fetch_news (limit_arg offset_arg : option string)
    (select : string + list stored_row) (now : datetime) : response :=
  match int_arg limit_arg with
  | None => int_failure limit_arg
  | Some l =>
      let limit := if l =? 0 then None else Some l in
      match int_arg offset_arg with
      | None => int_failure offset_arg
      | Some offset => read_rows limit offset select now
      end
  end.

End ReadPipeline.

(** Reading a field of a JSON object. *)
Definition json_field (k : string) (j : json) : option json :=
  match j with
  | JObj fields => assoc k fields
  | _ => None
  end.

(** A bracketed-host check that accepts every host, as CPython did
    before it validated them. *)
Definition accept_all : string -> bool := fun _ => true.

(** The rows of a batch insert with a given normalized link. *)
Definition rows_with_link (chk : string -> bool) (n : string)
    (rows : list new_row) : list new_row :=
  filter (fun r => normalize_link chk (row_link r) = n) rows.

Definition items_with_link (n : string) (l : list normalized_item)
  : list normalized_item :=
  filter (fun it => norm_link it = n) l.

(* ================================================================= *)
(** ** Definitions used by the statements *)

(** An item whose [norm_link] is the normalized form of its [link]. *)
Definition link_consistent (chk : string -> bool) (it : normalized_item) : Prop :=
  normalize_link chk (link it) = norm_link it.

(** The key a stored row contributes to the title+date set, and the
    test that decides whether it does. *)
Definition stored_key (r : stored_row) : string :=
  normalize_title (str_or_empty (r_title r)) +:+ "||" +:+ str_or_empty (r_date r).

Definition has_title_or_date (r : stored_row) : bool :=
  truthy (normalize_title (str_or_empty (r_title r)))
  || truthy (str_or_empty (r_date r)).

Definition stored_link (chk : string -> bool) (r : stored_row) : string :=
  normalize_link chk (str_or_empty (r_link r)).

(** Sample data for the examples. *)
Definition sample_entry (t l p : option string) : entry :=
  {| e_title := t; e_link := l; e_summary := PNone; e_description := PNone;
     e_content := PNone; e_subtitle := PNone; e_published := p;
     e_updated := None |}.

Definition stored_of_new (i : nat) (r : new_row) : stored_row :=
  {| r_id := Z.of_nat i; r_title := Some (row_title r);
     r_link := Some (row_link r); r_description := Some (row_description r);
     r_date := Some (row_date r) |}.

(** A store that never fails and answers an insert with the rows it was
    given. *)
Definition sample_store (t : list stored_row) : store :=
  {| table := t; select_error := fun _ => None;
     insert_exec := fun rows => inr (imap stored_of_new rows) |}.

Definition tracked_twice : list entry :=
  [sample_entry (Some "A") (Some "https://example.com/a?utm_source=x") None;
   sample_entry (Some "B") (Some "https://example.com/a?utm_medium=y") None].

Definition first_of_tracked_twice : new_row :=
  {| row_title := "A"; row_link := "https://example.com/a?utm_source=x";
     row_description := ""; row_date := "" |}.

(** An entry with a title and nothing else. *)
Definition title_only : entry := sample_entry (Some "Hello") None None.

Definition title_only_item : normalized_item :=
  {| title := "Hello"; link := ""; description := ""; date := "";
     norm_link := ""; title_date_key := "" |}.

(** A stored row with a link, a title and a date. *)
Definition linked_row : stored_row :=
  {| r_id := 1; r_title := Some "T"; r_link := Some "https://example.com/a";
     r_description := None; r_date := Some "D" |}.

(** The rows [fetch_news] selects: today's, or yesterday's when there
    are none today. *)
Definition selected_rows {datetime : Type}
    (feed_published fromisoformat dateutil_parse : string -> option datetime)
    (tzinfo_is_none : datetime -> bool) (utc_localize : datetime -> datetime)
    (kolkata_strftime : datetime -> option string)
    (today yesterday : string) (rows : list stored_row) : list stored_row :=
  let on := fun day =>
    rows_of_day datetime feed_published fromisoformat dateutil_parse
      tzinfo_is_none utc_localize kolkata_strftime (Some day) rows in
  match on today with
  | [] => on yesterday
  | _ => on today
  end.

(** A small date library for the examples: an instant is written as the
    text of its Kolkata calendar date, the feed parser reads one RFC 2822
    date, the ISO parser one ISO 8601 date, the flexible parser nothing. *)
Definition sample_feed_published (s : string) : option string :=
  if String.eqb s "Tue, 02 Jan 2024 10:00:00 GMT" then Some "2024-01-02"
  else None.

Definition sample_fromisoformat (s : string) : option string :=
  if String.eqb s "2024-01-01T08:00:00+00:00" then Some "2024-01-01" else None.

Definition sample_dateutil (s : string) : option string := None.

Definition sample_fetch_news (limit_arg offset_arg : option string)
    (select : string + list stored_row) (now : string) : response :=
  fetch_news string sample_feed_published sample_fromisoformat sample_dateutil
    (fun _ => false) (fun dt => dt) (fun dt => Some dt)
    (fun _ => "2024-01-01")
    (fun s => "invalid literal for int() with base 10: " +:+ s)
    limit_arg offset_arg select now.

Definition dated_row (id : Z) (d : string) : stored_row :=
  {| r_id := id; r_title := Some "t"; r_link := Some "l";
     r_description := Some ""; r_date := Some d |}.

Definition sample_rows : list stored_row :=
  [dated_row 4 "Tue, 02 Jan 2024 10:00:00 GMT";
   dated_row 3 "Tue, 02 Jan 2024 10:00:00 GMT";
   dated_row 2 "2024-01-01T08:00:00Z";
   dated_row 1 "some day"].

(** Characters that make [urlparse] cut a text or drop part of it. *)
Definition cutting_char (c : ascii) : bool :=
  char_eqb c ":" || char_eqb c "?" || char_eqb c "#" || char_eqb c ";"
  || unsafe_url_byte c.

(** A text [urlparse] reads as a path and nothing else: none of
    [: ? # ;], no tab, carriage return or line feed, no control
    character or whitespace at its start, no whitespace at its end, and
    no [//] at its start. *)
Definition plain_text (y : string) : bool :=
  all_chars (fun c => negb (cutting_char c)) y
  && String.eqb (lstrip_where C0_control_or_space y) y
  && String.eqb (rstrip_where is_space y) y
  && negb (startswith "//" y).

(** Characters [quote_plus] produces, and characters of an encoded
    query. *)
Definition enc_char (c : ascii) : bool :=
  always_safe c || char_eqb c "+" || char_eqb c "%".

Definition query_char (c : ascii) : bool :=
  enc_char c || char_eqb c "=" || char_eqb c "&".

(** The encoding of one character by [quote_plus]. *)
Definition enc (c : ascii) : string := quote_plus (String c EmptyString).

(** The pairs of a query dictionary, in the order [urlencode] writes
    them. *)
Definition pairs (d : qdict) : list (string * string) :=
  flat_map (fun kv => map (pair (fst kv)) (snd kv)) d.

Definition encode_pair (p : string * string) : string :=
  quote_plus (fst p) +:+ "=" +:+ quote_plus (snd p).

Definition lower_pair (p : string * string) : string * string :=
  (lower (fst p), lower (snd p)).

(** A query dictionary with keys and values in lower case. *)
Definition lowered (d : qdict) : qdict :=
  map (fun kv => (lower (fst kv), map lower (snd kv))) d.

Fixpoint distinct (l : list string) : bool :=
  match l with
  | [] => true
  | x :: r => negb (in_list x r) && distinct r
  end.

(** Regrouping pairs by key. *)
Definition add_pair (d : qdict) (nv : string * string) : qdict :=
  dict_append (fst nv) (snd nv) d.

(** The host and the path of a parsed link, as [normalize_link] joins
    them. *)
Definition host_and_path (parsed : ParseResult) : string :=
  default EmptyString (hostname parsed) +:+ path parsed.

Definition plain_char (c : ascii) : bool :=
  negb (cutting_char c || C0_control_or_space c).

(** A host and path that read back as a path: no control character, no
    whitespace, none of [: ? # ;], and no [//] at the start. *)
Definition plain_base (b : string) : bool :=
  all_chars plain_char b && negb (startswith "//" b).

Definition nonempty_values (kv : string * list string) : Prop := snd kv <> [].

Definition no_tracking_key (kv : string * list string) : Prop :=
  is_tracking_key (fst kv) = false.

(** A text made of ASCII characters, and a query argument that is one,
    or is absent. *)
Definition ascii_text (s : string) : bool :=
  all_chars (fun c => ord c <? 128) s.

Definition ascii_arg (arg : option string) : bool :=
  ascii_text (str_or_empty arg).

(** A text that is well-formed UTF-8: the decoder changes nothing. *)
Definition utf8_text (s : string) : Prop := decode_utf8_replace s = s.

Definition utf8_pair (p : string * string) : Prop :=
  utf8_text (fst p) /\ utf8_text (snd p).

Definition utf8_entry (kv : string * list string) : Prop :=
  utf8_text (fst kv) /\ Forall utf8_text (snd kv).

(** Characters of a canonical form with a plain base and a query. *)
Definition canonical_char (c : ascii) : bool :=
  plain_char c || query_char c || char_eqb c "?".

(** Definitions used by the statements on the rest of the code. *)

(** The three things a round of the deduplication can have done so far:
    rows queued for insertion and the two skip counters. *)
Definition accounted (st : dedup_state) : nat :=
  (length (to_insert st) + duplicateLink (skipped st)
   + duplicateTitleDate (skipped st))%nat.

(** The select of the page of rank [i]. *)
Definition page_select (i : nat) : store_event :=
  SelectRange (i * page_size) (i * page_size + page_size - 1).

(** A word: at least one character, none of them whitespace. *)
Definition is_word (w : string) : bool :=
  truthy w && all_chars (fun c => negb (is_space c)) w.

(** The key and the test [add_existing] applies to a row once it is
    stored as it was inserted. *)
Definition row_key (r : new_row) : string :=
  normalize_title (row_title r) +:+ "||" +:+ row_date r.

Definition row_keyed (r : new_row) : bool :=
  truthy (normalize_title (row_title r)) || truthy (row_date r).

(** A stored row that holds what a row of the batch insert was given. *)
Definition stored_as (r : new_row) (s : stored_row) : Prop :=
  r_title s = Some (row_title r) /\ r_link s = Some (row_link r)
  /\ r_date s = Some (row_date r).

(** An item the store can recognise again: it has a link, or no
    title+date key, or a title or a date that is not blank. *)
Definition recognisable (it : normalized_item) : bool :=
  truthy (norm_link it) || negb (truthy (title_date_key it))
  || row_keyed (row_of it).

(** An item whose title+date key is the one its row gets once stored. *)
Definition key_consistent (it : normalized_item) : Prop :=
  truthy (title_date_key it) = true -> title_date_key it = row_key (row_of it).

(** An item the sets already cover: its link is in the link set, or it
    has no link and its key is empty or in the title+date set. *)
Definition covered (links keys : gset string) (it : normalized_item) : Prop :=
  (truthy (norm_link it) = true /\ norm_link it ∈ links)
  \/ (truthy (norm_link it) = false
      /\ (truthy (title_date_key it) = false \/ title_date_key it ∈ keys)).
(** Where the members of the two sets come from: the sets the loop
    started with, or a row queued since. *)
Definition traced (chk : string -> bool) (l0 k0 : gset string)
    (st : dedup_state) : Prop :=
  (forall n, n ∈ existing_links_set st ->
     n ∈ l0 \/ exists r, r ∈ to_insert st /\ normalize_link chk (row_link r) = n
                         /\ n <> EmptyString)
  /\ (forall k, k ∈ existing_title_date_set st ->
     k ∈ k0 \/ exists r, r ∈ to_insert st /\ row_key r = k /\ row_keyed r = true).

(** A parse result with another scheme, and with another query. *)
Definition set_scheme (s : string) (p : ParseResult) : ParseResult :=
  {| scheme := s; netloc := netloc p; path := path p; params := params p;
     query := query p; fragment := fragment p |}.

Definition set_query (q : string) (p : ParseResult) : ParseResult :=
  {| scheme := scheme p; netloc := netloc p; path := path p; params := params p;
     query := q; fragment := fragment p |}.

(** A text with no control character and no whitespace. *)
Definition url_text (s : string) : bool :=
  all_chars (fun c => negb (C0_control_or_space c)) s.

(** The page of [rows] that a call with the integers [l] and [o] for
    [limit] and [offset] serves. *)
Definition page (l o : Z) (rows : list stored_row) : list stored_row :=
  apply_limit (if l =? 0 then None else Some l) (apply_offset o rows).

(** A row with no whitespace around any of its four fields. *)
Definition trimmed (r : new_row) : Prop :=
  strip (row_title r) = row_title r /\ strip (row_link r) = row_link r
  /\ strip (row_description r) = row_description r
  /\ strip (row_date r) = row_date r.

(** A store whose selects all raise. *)
Definition failing_store : store :=
  {| table := [linked_row]; select_error := fun _ => Some "timeout";
     insert_exec := fun _ => inl "timeout" |}.

(** An entry with a summary and a description. *)
Definition described_entry : entry :=
  {| e_title := Some "A"; e_link := None; e_summary := PStr " first ";
     e_description := PStr "second"; e_content := PNone; e_subtitle := PNone;
     e_published := None; e_updated := None |}.

Definition described_item : normalized_item :=
  {| title := "A"; link := ""; description := "first"; date := "";
     norm_link := ""; title_date_key := "" |}.

(** Case analysis on a character. *)
Ltac each_char c :=
  destruct c as [[] [] [] [] [] [] [] []]; vm_compute; try reflexivity.

(* ================================================================= *)
(** ** Strings: basic facts *)

Lemma truthy_false s : truthy s = false <-> s = EmptyString.
Proof. destruct s; simpl; split; congruence. Qed.

Lemma truthy_true s : truthy s = true <-> s <> EmptyString.
Proof. destruct s; simpl; split; congruence. Qed.

Lemma rstrip_where_idem p s :
  rstrip_where p (rstrip_where p s) = rstrip_where p s.
Proof.
  induction s as [|c r IH]; simpl; [reflexivity|].
  destruct (rstrip_where p r) as [|c' r'] eqn:E.
  - destruct (p c) eqn:Ec; simpl; [reflexivity|]. now rewrite Ec.
  - simpl in *. now rewrite IH.
Qed.

Lemma lstrip_where_head p s :
  match lstrip_where p s with
  | EmptyString => True
  | String c _ => p c = false
  end.
Proof.
  induction s as [|c r IH]; simpl; [exact I|].
  destruct (p c) eqn:E; [exact IH|]. simpl. exact E.
Qed.

Lemma rstrip_where_head p c r :
  p c = false ->
  exists r', rstrip_where p (String c r) = String c r'.
Proof.
  intros Hc. simpl. destruct (rstrip_where p r); rewrite ?Hc; eauto.
Qed.

Lemma strip_idem s : strip (strip s) = strip s.
Proof.
  unfold strip.
  pose proof (lstrip_where_head is_space s) as H.
  destruct (lstrip_where is_space s) as [|c r] eqn:E; [reflexivity|].
  destruct (rstrip_where_head is_space c r H) as [r' Hr'].
  rewrite Hr'. simpl lstrip_where. rewrite H. rewrite <- Hr'.
  apply rstrip_where_idem.
Qed.

Lemma normalize_link_empty chk : normalize_link chk EmptyString = EmptyString.
Proof. reflexivity. Qed.

(** Surrounding whitespace does not change the normalized link. *)
Lemma normalize_link_strip chk raw :
  normalize_link chk (strip raw) = normalize_link chk raw.
Proof.
  unfold normalize_link, prepare. rewrite strip_idem.
  destruct (truthy raw) eqn:Hraw; simpl.
  - destruct (truthy (strip raw)) eqn:Hs; simpl; [reflexivity|].
    apply truthy_false in Hs. rewrite Hs. reflexivity.
  - apply truthy_false in Hraw. subst raw. reflexivity.
Qed.

(* ================================================================= *)
(** ** The deduplication loop *)

(** The link set after one round: the item's link joins it exactly
    when the item has one. *)
Lemma decide_item_links st it n :
  n ∈ existing_links_set (decide_item st it)
  <-> n ∈ existing_links_set st \/ (n = norm_link it /\ n <> EmptyString).
Proof.
  unfold decide_item.
  destruct (truthy (norm_link it)) eqn:Hl.
  - apply truthy_true in Hl.
    destruct (bool_decide (norm_link it ∈ existing_links_set st)) eqn:Hin; simpl.
    + apply bool_decide_eq_true in Hin. split; [auto|].
      intros [?|[-> _]]; auto.
    + rewrite elem_of_union, elem_of_singleton. split.
      * intros [->|?]; auto.
      * intros [?|[-> _]]; auto.
  - apply truthy_false in Hl.
    assert (Hno : n = norm_link it /\ n <> EmptyString -> False)
      by (intros [-> ?]; congruence).
    destruct (truthy (title_date_key it)
              && negb (bool_decide (title_date_key it ∈ existing_title_date_set st)));
      simpl; tauto.
Qed.

Section DedupFacts.

Variable chk : string -> bool.

Lemma normalize_entry_consistent e it :
  normalize_entry chk e = Some it -> link_consistent chk it.
Proof.
  unfold normalize_entry, link_consistent.
  destruct (truthy (str_or_empty (e_title e)) || truthy (str_or_empty (e_link e)));
    [|discriminate].
  intros [= <-]. simpl. apply normalize_link_strip.
Qed.

Lemma normalize_entries_consistent items :
  Forall (link_consistent chk) (normalize_entries chk items).
Proof.
  unfold normalize_entries. induction items as [|e items IH]; simpl.
  - constructor.
  - destruct (normalize_entry chk e) eqn:E; simpl; [|exact IH].
    constructor; [|exact IH]. eapply normalize_entry_consistent; eauto.
Qed.

Lemma build_sets_from st rows :
  to_insert (fold_left (add_existing chk) rows st) = to_insert st
  /\ skipped (fold_left (add_existing chk) rows st) = skipped st.
Proof.
  revert st. induction rows as [|r rows IH]; intros st; simpl; [done|].
  destruct (IH (add_existing chk st r)) as [-> ->]. done.
Qed.

Lemma build_sets_to_insert rows : to_insert (build_sets chk rows) = [].
Proof. apply (build_sets_from (initial_state)). Qed.

Lemma build_sets_skipped rows :
  skipped (build_sets chk rows) = skipped initial_state.
Proof. apply (build_sets_from (initial_state)). Qed.

Lemma rows_with_link_app n l1 l2 :
  rows_with_link chk n (l1 ++ l2)
  = rows_with_link chk n l1 ++ rows_with_link chk n l2.
Proof. apply filter_app. Qed.

(** What one round adds to the rows with normalized link [n]. *)
Lemma decide_item_rows st it n :
  link_consistent chk it -> n <> EmptyString ->
  rows_with_link chk n (to_insert (decide_item st it))
  = rows_with_link chk n (to_insert st)
    ++ (if bool_decide (n ∈ existing_links_set st) then []
        else row_of <$> items_with_link n [it]).
Proof.
  intros Hc Hn. unfold link_consistent in Hc.
  assert (Hrow : normalize_link chk (row_link (row_of it)) = norm_link it)
    by exact Hc.
  unfold decide_item, items_with_link.
  destruct (truthy (norm_link it)) eqn:Hl.
  - destruct (bool_decide (norm_link it ∈ existing_links_set st)) eqn:Hin; simpl.
    + apply bool_decide_eq_true in Hin.
      destruct (decide (norm_link it = n)) as [<-|Hne].
      * rewrite bool_decide_eq_true_2 by done. by rewrite app_nil_r.
      * rewrite filter_cons_False by done.
        destruct (bool_decide _); by rewrite app_nil_r.
    + apply bool_decide_eq_false in Hin.
      rewrite rows_with_link_app. f_equal. unfold rows_with_link.
      destruct (decide (norm_link it = n)) as [<-|Hne].
      * rewrite bool_decide_eq_false_2 by done.
        rewrite !filter_cons_True by done. done.
      * rewrite !filter_cons_False by congruence.
        destruct (bool_decide _); done.
  - apply truthy_false in Hl.
    assert (Hne : norm_link it <> n) by congruence.
    rewrite filter_cons_False by done.
    replace (if bool_decide (n ∈ existing_links_set st) then []
             else row_of <$> filter (λ it0, norm_link it0 = n) [])
      with (@nil new_row) by (destruct (bool_decide _); done).
    rewrite app_nil_r.
    destruct (truthy (title_date_key it)
              && negb (bool_decide (title_date_key it ∈ existing_title_date_set st)));
      simpl; [|done].
    rewrite rows_with_link_app. unfold rows_with_link at 2.
    rewrite filter_cons_False by congruence. by rewrite app_nil_r.
Qed.

(** The rows with normalized link [n] after the whole loop: those
    already there, then the first item with that link unless the link
    was in the set. *)
Lemma dedupe_rows l : forall st n,
  Forall (link_consistent chk) l -> n <> EmptyString ->
  rows_with_link chk n (to_insert (dedupe l st))
  = rows_with_link chk n (to_insert st)
    ++ (if bool_decide (n ∈ existing_links_set st) then []
        else row_of <$> take 1 (items_with_link n l)).
Proof.
  induction l as [|it l IH]; intros st n Hl Hn; simpl.
  - destruct (bool_decide _); by rewrite app_nil_r.
  - inversion Hl as [|? ? Hit Hl']; subst.
    unfold dedupe in *. rewrite IH by done.
    rewrite decide_item_rows by done.
    rewrite <- app_assoc. f_equal.
    unfold items_with_link.
    destruct (bool_decide (n ∈ existing_links_set st)) eqn:Hin.
    + apply bool_decide_eq_true in Hin.
      rewrite bool_decide_eq_true_2; [done|].
      apply decide_item_links. auto.
    + apply bool_decide_eq_false in Hin.
      destruct (decide (norm_link it = n)) as [Heq|Hne].
      * rewrite !filter_cons_True by done. simpl.
        rewrite bool_decide_eq_true_2; [done|].
        apply decide_item_links. right. split; congruence.
      * rewrite !filter_cons_False by done. simpl.
        rewrite bool_decide_eq_false_2; [done|].
        rewrite decide_item_links. intros [?|[? _]]; congruence.
Qed.

End DedupFacts.

Section IngestFacts.

Variable chk : string -> bool.

Lemma add_existing_sets st r :
  (forall k, k ∈ existing_title_date_set (add_existing chk st r)
     <-> k ∈ existing_title_date_set st
         \/ (has_title_or_date r = true /\ k = stored_key r))
  /\ (forall n, n ∈ existing_links_set (add_existing chk st r)
     <-> n ∈ existing_links_set st
         \/ (n = stored_link chk r /\ n <> EmptyString)).
Proof.
  unfold add_existing, has_title_or_date, stored_key, stored_link; simpl.
  split.
  - intros k.
    destruct (truthy (normalize_title (str_or_empty (r_title r)))
              || truthy (str_or_empty (r_date r))).
    + rewrite elem_of_union, elem_of_singleton. tauto.
    + split; [auto|]. intros [?|[? _]]; [assumption|discriminate].
  - intros n.
    destruct (truthy (normalize_link chk (str_or_empty (r_link r)))) eqn:E.
    + apply truthy_true in E.
      rewrite elem_of_union, elem_of_singleton. split.
      * intros [->|?]; auto.
      * intros [?|[-> _]]; auto.
    + apply truthy_false in E. split; [auto|].
      intros [?|[-> ?]]; [assumption|contradiction].
Qed.

Lemma fold_add_existing_sets rows : forall st,
  (forall k, k ∈ existing_title_date_set (fold_left (add_existing chk) rows st)
     <-> k ∈ existing_title_date_set st
         \/ exists r, r ∈ rows /\ has_title_or_date r = true /\ k = stored_key r)
  /\ (forall n, n ∈ existing_links_set (fold_left (add_existing chk) rows st)
     <-> n ∈ existing_links_set st
         \/ exists r, r ∈ rows /\ n = stored_link chk r /\ n <> EmptyString).
Proof.
  induction rows as [|r rows IH]; intros st; simpl.
  - split; intros x; split; [auto| |auto|].
    + intros [?|(r & Hr & _)]; [done|]. by apply elem_of_nil in Hr.
    + intros [?|(r & Hr & _)]; [done|]. by apply elem_of_nil in Hr.
  - destruct (IH (add_existing chk st r)) as [IHk IHn].
    destruct (add_existing_sets st r) as [Hk Hn].
    split; intros x.
    + rewrite IHk, Hk. split.
      * intros [[?|[? ?]]|(r' & ? & ? & ?)]; auto.
        -- right. exists r. split; [apply elem_of_cons; auto|auto].
        -- right. exists r'. split; [apply elem_of_cons; auto|auto].
      * intros [?|(r' & Hr & ? & ?)]; auto.
        apply elem_of_cons in Hr as [->|Hr]; auto.
        right. exists r'. auto.
    + rewrite IHn, Hn. split.
      * intros [[?|[? ?]]|(r' & ? & ? & ?)]; auto.
        -- right. exists r. split; [apply elem_of_cons; auto|auto].
        -- right. exists r'. split; [apply elem_of_cons; auto|auto].
      * intros [?|(r' & Hr & ? & ?)]; auto.
        apply elem_of_cons in Hr as [->|Hr]; auto.
        right. exists r'. auto.
Qed.

Lemma decide_item_noLinkNoTitle st it :
  noLinkNoTitle (skipped (decide_item st it)) = noLinkNoTitle (skipped st).
Proof. unfold decide_item. repeat case_match; reflexivity. Qed.

Lemma dedupe_noLinkNoTitle l : forall st,
  noLinkNoTitle (skipped (dedupe l st)) = noLinkNoTitle (skipped st).
Proof.
  induction l as [|it l IH]; intros st; simpl; [reflexivity|].
  unfold dedupe in *. rewrite IH. apply decide_item_noLinkNoTitle.
Qed.

Lemma decisions_noLinkNoTitle items rows :
  noLinkNoTitle (skipped (decisions chk items rows)) = 0%nat.
Proof.
  unfold decisions. rewrite dedupe_noLinkNoTitle, build_sets_skipped.
  reflexivity.
Qed.

(** Paging through the table makes no insert. *)
Lemma fetch_pages_events fuel st : forall offset acc tr ev,
  In ev (snd (fetch_pages fuel st offset acc tr)) ->
  In ev tr \/ exists a b, ev = SelectRange a b.
Proof.
  induction fuel as [|fuel IH]; intros offset acc tr ev; simpl;
    destruct (select_range st offset) as [?|[|r batch]]; simpl;
    try destruct (_ <? _)%nat; simpl;
    try (rewrite in_app_iff; simpl; intros [?|[<-|[]]]; eauto).
  intros H. apply IH in H. rewrite in_app_iff in H. simpl in H.
  destruct H as [[?|[<-|[]]]|?]; eauto.
Qed.

Lemma load_existing_events st rows :
  ~ In (Insert rows) (snd (load_existing st)).
Proof.
  unfold load_existing.
  destruct (fetch_pages _ st 0%nat [] []) as [o tr] eqn:E; simpl.
  intros H.
  pose proof (fetch_pages_events (length (table st)) st 0%nat [] [] (Insert rows)) as P.
  rewrite E in P. destruct (P H) as [[]|(a & b & [=])].
Qed.

(** The batch insert of a run carries the rows the loop decided on. *)
Lemma store_news_insert ok status_code items st rows :
  In (Insert rows) (snd (store_news chk (FeedResponse ok status_code items) st)) ->
  rows = to_insert (decisions chk items (fst (load_existing st))).
Proof.
  unfold store_news.
  destruct ok; simpl; [|tauto].
  destruct (length items =? 0)%nat; simpl; [tauto|].
  destruct (length (normalize_entries chk items) =? 0)%nat; simpl; [tauto|].
  pose proof (load_existing_events st rows) as Hno.
  destruct (load_existing st) as [existing tr]; simpl in *.
  destruct (length (to_insert (decisions chk items existing)) =? 0)%nat;
    simpl; [tauto|].
  destruct (insert_exec st _); simpl; rewrite in_app_iff; simpl;
    intros [?|[[= <-]|[]]]; tauto.
Qed.

End IngestFacts.

(** C1. In every ingest run and for every non-empty normalized link, the
    batch insert holds at most one row with that link: none when the
    link is already stored, otherwise the row of the first entry seen
    with it; an entry's link joins the link set in the round that looks
    at it, so later entries with the same normalized link are skipped. *)
Theorem one_insert_per_normalized_link
    chk ok status_code items st rows n :
  n <> EmptyString ->
  In (Insert rows) (snd (store_news chk (FeedResponse ok status_code items) st)) ->
  let stored := build_sets chk (fst (load_existing st)) in
  rows_with_link chk n rows
  = (if bool_decide (n ∈ existing_links_set stored) then []
     else row_of <$> take 1 (items_with_link n (normalize_entries chk items)))
  /\ (length (rows_with_link chk n rows) <= 1)%nat
  /\ (forall s it, norm_link it = n -> n ∈ existing_links_set (decide_item s it)).
Proof.
  intros Hn Hin stored.
  apply store_news_insert in Hin. subst rows.
  assert (E : rows_with_link chk n (to_insert (decisions chk items (fst (load_existing st))))
              = (if bool_decide (n ∈ existing_links_set stored) then []
                 else row_of <$> take 1 (items_with_link n (normalize_entries chk items)))).
  { unfold decisions. rewrite (dedupe_rows chk) by
      (auto using normalize_entries_consistent).
    rewrite build_sets_to_insert. reflexivity. }
  split; [exact E|]. split.
  - rewrite E. destruct (bool_decide _); simpl; [lia|].
    rewrite length_fmap, length_take. lia.
  - intros s it Hit. apply (proj2 (decide_item_links s it n)).
    right. split; congruence.
Qed.

Lemma one_insert_per_normalized_link_witness :
  let feed := FeedResponse true 200 tracked_twice in
  let st := sample_store [] in
  let rows := [first_of_tracked_twice] in
  let stored := build_sets accept_all (fst (load_existing st)) in
  In (Insert rows) (snd (store_news accept_all feed st))
  /\ rows_with_link accept_all "example.com/a" rows
     = (if bool_decide ("example.com/a" ∈ existing_links_set stored) then []
        else row_of <$> take 1 (items_with_link "example.com/a"
                                  (normalize_entries accept_all tracked_twice)))
  /\ (length (rows_with_link accept_all "example.com/a" rows) <= 1)%nat.
Proof.
  intros feed st rows stored.
  assert (Hin : In (Insert rows) (snd (store_news accept_all feed st)))
    by (vm_compute; auto).
  assert (Hn : "example.com/a" <> EmptyString) by discriminate.
  destruct (one_insert_per_normalized_link accept_all true 200 tracked_twice
              st rows "example.com/a" Hn Hin) as (E & L & _).
  exact (conj Hin (conj E L)).
Defined.

(** Both entries of [tracked_twice] normalize to the same link, and only
    the first is inserted. *)
Example tracked_twice_run :
  store_news accept_all (FeedResponse true 200 tracked_twice) (sample_store [])
  = (ok_response
       [("message", JStr "Fetched feed and stored new items");
        ("fetchedCount", JInt 2); ("insertedCount", JInt 1);
        ("inserted", JList [json_of_row (stored_of_new 0 first_of_tracked_twice)]);
        ("skipped", JObj [("duplicateLink", JInt 1); ("duplicateTitleDate", JInt 0);
                          ("noLinkNoTitle", JInt 0)])],
     [SelectRange 0 999; Insert [first_of_tracked_twice]]).
Proof. vm_compute. reflexivity. Qed.

(** C10. Whenever an ingest response carries skip statistics, their
    [noLinkNoTitle] counter is 0. *)
Theorem noLinkNoTitle_always_zero chk feed st sk :
  json_field "skipped" (body (fst (store_news chk feed st))) = Some sk ->
  json_field "noLinkNoTitle" sk = Some (JInt 0).
Proof.
  unfold store_news.
  destruct feed as [err|ok status_code items]; simpl; [discriminate|].
  destruct ok; simpl; [|discriminate].
  destruct (length items =? 0)%nat; simpl; [discriminate|].
  destruct (length (normalize_entries chk items) =? 0)%nat; simpl; [discriminate|].
  destruct (load_existing st) as [existing tr].
  destruct (length (to_insert (decisions chk items existing)) =? 0)%nat; simpl.
  - intros [= <-]. simpl. now rewrite decisions_noLinkNoTitle.
  - destruct (insert_exec st _); simpl; [discriminate|].
    intros [= <-]. simpl. now rewrite decisions_noLinkNoTitle.
Qed.

Lemma noLinkNoTitle_always_zero_witness :
  let run := store_news accept_all (FeedResponse true 200 tracked_twice)
               (sample_store []) in
  let sk := JObj [("duplicateLink", JInt 1); ("duplicateTitleDate", JInt 0);
                  ("noLinkNoTitle", JInt 0)] in
  json_field "skipped" (body (fst run)) = Some sk
  /\ json_field "noLinkNoTitle" sk = Some (JInt 0).
Proof.
  intros run sk.
  assert (H : json_field "skipped" (body (fst run)) = Some sk)
    by (vm_compute; reflexivity).
  exact (conj H (noLinkNoTitle_always_zero accept_all _ _ sk H)).
Defined.

(** C5. A feed that parses to no entry is answered with status 200 and
    zero counts under the keys [fetched] and [inserted]; the keys
    [fetchedCount] and [insertedCount] of the other responses are absent.
    No store call is made. *)
Theorem empty_feed_response chk status_code st :
  let run := store_news chk (FeedResponse true status_code []) st in
  status (fst run) = 200
  /\ snd run = []
  /\ json_field "fetched" (body (fst run)) = Some (JInt 0)
  /\ json_field "inserted" (body (fst run)) = Some (JInt 0)
  /\ json_field "fetchedCount" (body (fst run)) = None
  /\ json_field "insertedCount" (body (fst run)) = None.
Proof. simpl. repeat split; reflexivity. Qed.

(** The response of a run that finds nothing new does carry
    [fetchedCount] and [insertedCount]. *)
Example nothing_new_response :
  let rows := [stored_of_new 1 first_of_tracked_twice] in
  let run := store_news accept_all (FeedResponse true 200 tracked_twice)
               (sample_store rows) in
  json_field "fetchedCount" (body (fst run)) = Some (JInt 2)
  /\ json_field "insertedCount" (body (fst run)) = Some (JInt 0)
  /\ snd run = [SelectRange 0 999].
Proof. vm_compute. repeat split; reflexivity. Qed.

(** C4, as stated, fails: an entry that passes the title-or-link filter
    with an empty normalized link and an empty title+date key raises
    [duplicateTitleDate]. *)
Lemma entry_without_link_and_key_is_counted :
  normalize_entry accept_all title_only = Some title_only_item
  /\ norm_link title_only_item = EmptyString
  /\ title_date_key title_only_item = EmptyString
  /\ duplicateTitleDate (skipped initial_state) = 0%nat
  /\ duplicateTitleDate (skipped (decide_item initial_state title_only_item)) = 1%nat
  /\ json_field "skipped"
       (body (fst (store_news accept_all (FeedResponse true 200 [title_only])
                     (sample_store []))))
     = Some (JObj [("duplicateLink", JInt 0); ("duplicateTitleDate", JInt 1);
                   ("noLinkNoTitle", JInt 0)]).
Proof. vm_compute. repeat split; reflexivity. Qed.

(** C4, amended. An entry with an empty normalized link and an empty
    title+date key is not inserted and is counted once under
    [duplicateTitleDate], the other two counters staying as they were;
    and a round raises [duplicateTitleDate] exactly for an entry with an
    empty normalized link whose title+date key is empty or already in
    the set. *)
Theorem title_date_skip_accounting st it :
  (norm_link it = EmptyString -> title_date_key it = EmptyString ->
     to_insert (decide_item st it) = to_insert st
     /\ skipped (decide_item st it) = count_duplicate_title_date (skipped st))
  /\ (duplicateTitleDate (skipped (decide_item st it))
      <> duplicateTitleDate (skipped st)
      <-> norm_link it = EmptyString
          /\ (title_date_key it = EmptyString
              \/ title_date_key it ∈ existing_title_date_set st)).
Proof.
  split.
  - intros Hl Hk. unfold decide_item. rewrite Hl, Hk. simpl. auto.
  - unfold decide_item.
    destruct (truthy (norm_link it)) eqn:Hl.
    + apply truthy_true in Hl.
      destruct (bool_decide (norm_link it ∈ existing_links_set st)); simpl;
        (split; [congruence|tauto]).
    + apply truthy_false in Hl.
      destruct (truthy (title_date_key it)) eqn:Hk; simpl.
      * apply truthy_true in Hk.
        destruct (bool_decide (title_date_key it ∈ existing_title_date_set st)) eqn:Hin;
          simpl.
        -- apply bool_decide_eq_true in Hin. split; [auto|lia].
        -- apply bool_decide_eq_false in Hin. split; [congruence|tauto].
      * apply truthy_false in Hk. split; [auto|lia].
Qed.

Lemma title_date_skip_accounting_witness :
  to_insert (decide_item initial_state title_only_item) = to_insert initial_state
  /\ skipped (decide_item initial_state title_only_item)
     = count_duplicate_title_date (skipped initial_state).
Proof.
  apply (proj1 (title_date_skip_accounting initial_state title_only_item));
    reflexivity.
Defined.

(** C3, as stated, fails: a stored row with a non-empty normalized link
    also puts its key into the title+date set. *)
Lemma linked_row_feeds_title_date_set :
  stored_link accept_all linked_row = "example.com/a"
  /\ stored_key linked_row = "t||D"
  /\ "example.com/a" ∈ existing_links_set (build_sets accept_all [linked_row])
  /\ "t||D" ∈ existing_title_date_set (build_sets accept_all [linked_row]).
Proof.
  split; [reflexivity|]. split; [reflexivity|].
  split; apply (bool_decide_unpack _); vm_compute; exact I.
Qed.

(** C3, amended. The title+date set is built from every stored row whose
    normalized title or date is non-empty, whether the row has a link or
    not; the link set is built from every stored row whose normalized
    link is non-empty.  The two tests are independent. *)
Theorem dedup_sets_of_stored_rows chk rows :
  (forall k, k ∈ existing_title_date_set (build_sets chk rows)
     <-> exists r, r ∈ rows /\ has_title_or_date r = true /\ k = stored_key r)
  /\ (forall n, n ∈ existing_links_set (build_sets chk rows)
     <-> exists r, r ∈ rows /\ n = stored_link chk r /\ n <> EmptyString).
Proof.
  destruct (fold_add_existing_sets chk rows initial_state) as [Hk Hn].
  split; intros x.
  - rewrite (Hk x). simpl. rewrite elem_of_empty. tauto.
  - rewrite (Hn x). simpl. rewrite elem_of_empty. tauto.
Qed.

Section ReadFacts.

Context {datetime : Type}.
Variables feed_published fromisoformat dateutil_parse : string -> option datetime.
Variable tzinfo_is_none : datetime -> bool.
Variable utc_localize : datetime -> datetime.
Variable kolkata_strftime : datetime -> option string.
Variable midnight_minus_one_day : datetime -> datetime.
Variable value_error_text : string -> string.

Local Abbreviation parse_row_date' :=
  (parse_row_date datetime feed_published fromisoformat dateutil_parse
     tzinfo_is_none utc_localize).
Local Abbreviation to_kolkata_date_str' :=
  (to_kolkata_date_str datetime tzinfo_is_none utc_localize kolkata_strftime).
Local Abbreviation kolkata_date' :=
  (kolkata_date datetime feed_published fromisoformat dateutil_parse
     tzinfo_is_none utc_localize kolkata_strftime).
Local Abbreviation rows_of_day' :=
  (rows_of_day datetime feed_published fromisoformat dateutil_parse
     tzinfo_is_none utc_localize kolkata_strftime).
Local Abbreviation today_str' :=
  (today_str datetime tzinfo_is_none utc_localize kolkata_strftime).
Local Abbreviation yesterday_str' :=
  (yesterday_str datetime tzinfo_is_none utc_localize kolkata_strftime
     midnight_minus_one_day).
Local Abbreviation selected_rows' :=
  (selected_rows feed_published fromisoformat dateutil_parse
     tzinfo_is_none utc_localize kolkata_strftime).
Local Abbreviation fetch_news' :=
  (fetch_news datetime feed_published fromisoformat dateutil_parse
     tzinfo_is_none utc_localize kolkata_strftime midnight_minus_one_day
     value_error_text).



Lemma selected_rows_spec today yesterday rows :
  exists day,
    ((rows_of_day' (Some today) rows <> [] /\ day = today)
     \/ (rows_of_day' (Some today) rows = [] /\ day = yesterday))
    /\ selected_rows' today yesterday rows = rows_of_day' (Some day) rows.
Proof.
  unfold selected_rows.
  destruct (rows_of_day' (Some today) rows) as [|r l] eqn:E.
  - exists yesterday. split; [right; auto|reflexivity].
  - exists today. split; [left; split; [discriminate|reflexivity]|].
    symmetry. exact E.
Qed.



Lemma slice_from_drop {A} (l : list A) i :
  0 <= i -> slice_from l i = drop (Z.to_nat i) l.
Proof.
  intros Hi. unfold slice_from.
  destruct (Z.ltb_spec i 0) as [?|_]; [lia|].
  destruct (Z.le_gt_cases i (Z.of_nat (length l))) as [H|H].
  - now rewrite Z.min_l by assumption.
  - rewrite Z.min_r by lia. rewrite Nat2Z.id.
    change (@skipn A) with (@drop A).
    rewrite drop_all. symmetry. apply drop_ge. lia.
Qed.

Lemma slice_to_take {A} (l : list A) j :
  0 <= j -> slice_to l j = take (Z.to_nat j) l.
Proof.
  intros Hj. unfold slice_to.
  destruct (Z.ltb_spec j 0) as [?|_]; [lia|].
  destruct (Z.le_gt_cases j (Z.of_nat (length l))) as [H|H].
  - now rewrite Z.min_l by assumption.
  - rewrite Z.min_r by lia. rewrite Nat2Z.id.
    change (@firstn A) with (@take A).
    rewrite firstn_all. symmetry. apply take_ge. lia.
Qed.

Lemma slice_from_end {A} (l : list A) i :
  i < 0 -> slice_from l i = drop (length l - Z.to_nat (- i)) l.
Proof.
  intros Hi. unfold slice_from.
  destruct (Z.ltb_spec i 0) as [_|?]; [|lia].
  change (@skipn A) with (@drop A). f_equal. lia.
Qed.

Lemma slice_to_end {A} (l : list A) j :
  j < 0 -> slice_to l j = take (length l - Z.to_nat (- j)) l.
Proof.
  intros Hj. unfold slice_to.
  destruct (Z.ltb_spec j 0) as [_|?]; [|lia].
  change (@firstn A) with (@take A). f_equal. lia.
Qed.

(** Offset and limit as positions in the list: a negative offset keeps
    the last rows, a negative limit drops them, and 0 does nothing. *)
Lemma served_rows l o (rows : list stored_row) :
  apply_limit (if l =? 0 then None else Some l) (apply_offset o rows)
  = let kept :=
      if o <? 0 then drop (length rows - Z.to_nat (- o)) rows
      else drop (Z.to_nat o) rows in
    if l =? 0 then kept
    else if l <? 0 then take (length kept - Z.to_nat (- l)) kept
    else take (Z.to_nat l) kept.
Proof.
  assert (Ho : apply_offset o rows
               = if o <? 0 then drop (length rows - Z.to_nat (- o)) rows
                 else drop (Z.to_nat o) rows).
  { unfold apply_offset. destruct (Z.eqb_spec o 0) as [->|Hn]; [reflexivity|].
    destruct (Z.ltb_spec o 0).
    - now apply slice_from_end.
    - apply slice_from_drop. lia. }
  rewrite Ho. cbv zeta. set (kept := if o <? 0 then _ else _).
  destruct (Z.eqb_spec l 0) as [->|Hn]; [reflexivity|].
  unfold apply_limit. destruct (Z.ltb_spec l 0).
  - now apply slice_to_end.
  - apply slice_to_take. lia.
Qed.


(** The response to a call whose arguments are integers and whose
    store query succeeds. *)
Lemma fetch_news_served limit_arg offset_arg l o rows now today yesterday :
  today_str' now = Some today ->
  yesterday_str' now = Some yesterday ->
  int_arg limit_arg = Some l ->
  int_arg offset_arg = Some o ->
  let todays := rows_of_day' (Some today) rows in
  let news := apply_limit (if l =? 0 then None else Some l)
                (apply_offset o (selected_rows' today yesterday rows)) in
  fetch_news' limit_arg offset_arg (inr rows) now
  = ok_response
      [("requested_day",
         JStr match todays with [] => "yesterday" | _ => "today" end);
       ("day_date", JStr match todays with [] => yesterday | _ => today end);
       ("count", JInt (Z.of_nat (length news)));
       ("news", JList (map json_of_row news))].
Proof.
  intros Ht Hy Hl Ho todays news.
  unfold fetch_news. rewrite Hl, Ho. unfold read_rows.
  rewrite Ht, Hy. subst news. unfold selected_rows. fold todays.
  destruct todays; simpl; rewrite ?length_map; reflexivity.
Qed.


(** C6, amended. An argument of ASCII characters that [int] cannot
    read (no integer literal, or one of more than 4300 digits) makes the
    call fail with status 500 and no news; every integer [int] reads,
    negative ones included, is accepted: the call is served with status
    200 and the integer is used as the bound of the slice, so that a
    negative offset keeps the last [-offset] selected rows, a negative
    limit drops the last [-limit] of the rows kept, and 0 is no bound. *)
Theorem unreadable_argument_is_a_server_error
    limit_arg offset_arg select now :
  (ascii_arg limit_arg = true -> ascii_arg offset_arg = true ->
   int_arg limit_arg = None \/ int_arg offset_arg = None ->
     let resp := fetch_news' limit_arg offset_arg select now in
     status resp = 500 /\ json_field "news" (body resp) = None)
  /\ (forall l o rows today yesterday,
        int_arg limit_arg = Some l -> int_arg offset_arg = Some o ->
        select = inr rows ->
        today_str' now = Some today -> yesterday_str' now = Some yesterday ->
        let resp := fetch_news' limit_arg offset_arg select now in
        let selected := selected_rows' today yesterday rows in
        let kept :=
          if o <? 0 then drop (length selected - Z.to_nat (- o)) selected
          else drop (Z.to_nat o) selected in
        let news :=
          if l =? 0 then kept
          else if l <? 0 then take (length kept - Z.to_nat (- l)) kept
          else take (Z.to_nat l) kept in
        status resp = 200
        /\ json_field "news" (body resp) = Some (JList (map json_of_row news))).
Proof.
  split.
  - unfold fetch_news, int_failure.
    intros _ _ [H|H]; rewrite H; simpl; [auto|].
    destruct (int_arg limit_arg); simpl; auto.
  - intros l o rows today yesterday Hl Ho -> Ht Hy.
    rewrite (fetch_news_served limit_arg offset_arg l o rows now
               today yesterday Ht Hy Hl Ho).
    cbv zeta. rewrite <- served_rows. split; reflexivity.
Qed.

End ReadFacts.


(** With no row of today the rows of yesterday are served. *)
Example yesterday_fallback :
  sample_fetch_news None None (inr (skipn 2 sample_rows)) "2024-01-02"
  = ok_response
      [("requested_day", JStr "yesterday"); ("day_date", JStr "2024-01-01");
       ("count", JInt 1);
       ("news", JList [json_of_row (dated_row 2 "2024-01-01T08:00:00Z")])].
Proof. vm_compute. reflexivity. Qed.

(** C6, as stated, fails: a negative limit is not rejected, the call is
    served and the limit cuts the list from its end; and a limit that is
    no integer is answered with status 500, not 400. *)
Lemma negative_limit_is_served :
  int_arg (Some "-1") = Some (-1)
  /\ sample_fetch_news (Some "-1") None (inr sample_rows) "2024-01-02"
     = ok_response
         [("requested_day", JStr "today"); ("day_date", JStr "2024-01-02");
          ("count", JInt 1);
          ("news", JList [json_of_row (dated_row 4 "Tue, 02 Jan 2024 10:00:00 GMT")])]
  /\ int_arg (Some "abc") = None
  /\ status (sample_fetch_news (Some "abc") None (inr sample_rows) "2024-01-02")
     = 500.
Proof. vm_compute. repeat split; reflexivity. Qed.

Lemma unreadable_argument_is_a_server_error_witness :
  let resp := sample_fetch_news (Some "abc") None (inr sample_rows) "2024-01-02" in
  status resp = 500 /\ json_field "news" (body resp) = None.
Proof.
  apply (proj1 (unreadable_argument_is_a_server_error
                  sample_feed_published sample_fromisoformat sample_dateutil
                  (fun _ => false) (fun dt => dt) (fun dt => Some dt)
                  (fun _ => "2024-01-01")
                  (fun s => "invalid literal for int() with base 10: " +:+ s)
                  (Some "abc") None (inr sample_rows) "2024-01-02")).
  - reflexivity.
  - reflexivity.
  - left. reflexivity.
Defined.

(** A negative offset is served as well: it keeps the last rows. *)
Example negative_offset_is_served :
  int_arg (Some "-1") = Some (-1)
  /\ sample_fetch_news None (Some "-1") (inr sample_rows) "2024-01-02"
     = ok_response
         [("requested_day", JStr "today"); ("day_date", JStr "2024-01-02");
          ("count", JInt 1);
          ("news", JList [json_of_row (dated_row 3 "Tue, 02 Jan 2024 10:00:00 GMT")])].
Proof. vm_compute. split; reflexivity. Qed.

(** A literal of 4300 digits is read, one of 4301 digits is not, and
    the call that carries it fails. *)
Example oversized_limit_is_refused :
  let digits := fun n => string_of_list_ascii (repeat "1"%char n) in
  int_arg (Some (digits 4300%nat)) <> None
  /\ int_arg (Some (digits 4301%nat)) = None
  /\ status (sample_fetch_news (Some (digits 4301%nat)) None
               (inr sample_rows) "2024-01-02") = 500.
Proof. vm_compute. split; [discriminate|split; reflexivity]. Qed.

(* ================================================================= *)
(** ** The link normalizer *)

Lemma lower_char_idem c : lower_char (lower_char c) = lower_char c.
Proof. each_char c. Qed.

Lemma lower_char_slash c : char_eqb (lower_char c) "/" = char_eqb c "/".
Proof. each_char c. Qed.

Lemma lower_idem s : lower (lower s) = lower s.
Proof.
  induction s as [|c r IH]; simpl; [reflexivity|].
  now rewrite lower_char_idem, IH.
Qed.

Lemma lower_empty s : lower s = EmptyString <-> s = EmptyString.
Proof. destruct s; simpl; split; congruence. Qed.

Lemma endswith_slash_lower s :
  endswith_char "/" (lower s) = endswith_char "/" s.
Proof.
  induction s as [|c r IH]; [reflexivity|].
  destruct r as [|c' r']; [apply lower_char_slash|].
  exact IH.
Qed.

Lemma rstrip_slash_no_trailing s :
  endswith_char "/" (rstrip_where is_slash s) = false.
Proof.
  induction s as [|c r IH]; simpl; [reflexivity|].
  destruct (rstrip_where is_slash r) as [|c' r'] eqn:E.
  - unfold is_slash. destruct (char_eqb c "/") eqn:Ec; simpl; [reflexivity|exact Ec].
  - exact IH.
Qed.

Lemma rstrip_slash_fixed s :
  endswith_char "/" s = false -> rstrip_where is_slash s = s.
Proof.
  induction s as [|c r IH]; simpl; [reflexivity|].
  destruct r as [|c' r'].
  - intros H. simpl. unfold is_slash. now rewrite H.
  - intros H. rewrite (IH H). reflexivity.
Qed.

Lemma endswith_short s :
  endswith_char "/" s = true -> (1 <? Z.of_nat (String.length s)) = false ->
  s = "/".
Proof.
  destruct s as [|c [|c' r]]; simpl; try discriminate.
  - intros H _. unfold char_eqb in H. apply Ascii.eqb_eq in H. now subst.
  - intros _ H. apply Z.ltb_ge in H. lia.
Qed.

(** What the trailing-slash step does: every trailing slash goes, except
    that a lone [/] stays. *)
Lemma trim_trailing_slash_spec norm :
  trim_trailing_slash norm
  = if String.eqb norm "/" then "/" else rstrip_where is_slash norm.
Proof.
  unfold trim_trailing_slash.
  destruct (String.eqb norm "/") eqn:E.
  - apply String.eqb_eq in E. subst. reflexivity.
  - apply String.eqb_neq in E.
    destruct (endswith_char "/" norm) eqn:He; simpl.
    + destruct (1 <? Z.of_nat (String.length norm)) eqn:Hlen; [reflexivity|].
      exfalso. apply E. now apply endswith_short.
    + symmetry. now apply rstrip_slash_fixed.
Qed.

Lemma trim_trailing_slash_end norm :
  trim_trailing_slash norm = "/"
  \/ endswith_char "/" (trim_trailing_slash norm) = false.
Proof.
  rewrite trim_trailing_slash_spec.
  destruct (String.eqb norm "/"); [left; reflexivity|].
  right. apply rstrip_slash_no_trailing.
Qed.

(** Every result is in lower case and ends in no slash, unless it is the
    lone [/]. *)
Lemma normalize_link_shape chk raw :
  lower (normalize_link chk raw) = normalize_link chk raw
  /\ (normalize_link chk raw = "/"
      \/ endswith_char "/" (normalize_link chk raw) = false).
Proof.
  unfold normalize_link.
  destruct (truthy raw); simpl; [|split; [reflexivity|right; reflexivity]].
  destruct (urlparse chk (prepare raw)) as [parsed|].
  - split; [apply lower_idem|].
    destruct (trim_trailing_slash_end (assemble parsed)) as [->|H].
    + left. reflexivity.
    + right. now rewrite endswith_slash_lower.
  - split; [apply lower_idem|].
    right. rewrite endswith_slash_lower. apply rstrip_slash_no_trailing.
Qed.

(** C8, as stated, fails: two trailing slashes are both stripped. *)
Lemma two_trailing_slashes_both_stripped :
  (assemble <$> urlparse accept_all (prepare "https://example.com/a//"))
  = Some "example.com/a//"
  /\ normalize_link accept_all "https://example.com/a//" = "example.com/a"
  /\ normalize_link accept_all "https://example.com/a//" <> "example.com/a/".
Proof.
  split; [vm_compute; reflexivity|].
  split; [vm_compute; reflexivity|vm_compute; discriminate].
Qed.

(** C8, amended. [normalize_link] strips every trailing [/] of the
    canonical form, not one only, except that a canonical form that is
    the lone [/] is kept; so the result ends in no [/] unless it is
    [/] itself. *)
Theorem trailing_slashes_all_stripped chk raw parsed :
  truthy raw = true ->
  urlparse chk (prepare raw) = Some parsed ->
  let norm := assemble parsed in
  normalize_link chk raw
  = lower (if String.eqb norm "/" then "/" else rstrip_where is_slash norm)
  /\ (normalize_link chk raw = "/"
      \/ endswith_char "/" (normalize_link chk raw) = false).
Proof.
  intros Hraw Hp norm. split; [|apply normalize_link_shape].
  unfold normalize_link. rewrite Hraw, Hp. simpl.
  now rewrite trim_trailing_slash_spec.
Qed.

Lemma trailing_slashes_all_stripped_witness :
  let parsed := {| scheme := "https"; netloc := "example.com"; path := "/a//";
                   params := ""; query := ""; fragment := "" |} in
  let norm := assemble parsed in
  normalize_link accept_all "https://example.com/a//"
  = lower (if String.eqb norm "/" then "/" else rstrip_where is_slash norm)
  /\ (normalize_link accept_all "https://example.com/a//" = "/"
      \/ endswith_char "/" (normalize_link accept_all "https://example.com/a//")
         = false).
Proof.
  apply (trailing_slashes_all_stripped accept_all "https://example.com/a//");
    reflexivity.
Defined.

(** The lone root is kept. *)
Example root_is_kept : normalize_link accept_all "/" = "/".
Proof. reflexivity. Qed.

Lemma filter_filter_bool {A} (f g : A -> bool) l :
  List.filter f (List.filter g l) = List.filter (fun x => g x && f x) l.
Proof.
  induction l as [|a l IH]; simpl; [reflexivity|].
  destruct (g a); simpl; [destruct (f a)|]; now rewrite IH.
Qed.

(** Deleting the keys of a list one after the other leaves the entries
    whose key is not in the list. *)
Lemma fold_dict_del ks : forall d : qdict,
  fold_left (fun d key => dict_del key d) ks d
  = List.filter (fun kv => negb (in_list (fst kv) ks)) d.
Proof.
  induction ks as [|k ks IH]; intros d; simpl.
  - induction d as [|a d IHd]; simpl; [reflexivity|]. now rewrite <- IHd.
  - rewrite IH. unfold dict_del. rewrite filter_filter_bool.
    apply List.filter_ext. intros kv. now rewrite negb_orb.
Qed.

Lemma in_tracking_keys (d : qdict) kv :
  In kv d ->
  in_list (fst kv) (List.filter is_tracking_key (map fst d))
  = is_tracking_key (fst kv).
Proof.
  intros Hin. unfold in_list.
  destruct (is_tracking_key (fst kv)) eqn:E.
  - apply List.existsb_exists. exists (fst kv). split.
    + apply List.filter_In. split; [now apply List.in_map|exact E].
    + apply String.eqb_refl.
  - apply not_true_is_false. intros H.
    apply List.existsb_exists in H as (k & Hk & Heq).
    apply List.filter_In in Hk as [_ Hk]. apply String.eqb_eq in Heq.
    congruence.
Qed.

(** The two loops of [normalize_link] keep exactly the entries whose key
    is no tracking key. *)
Lemma remove_tracking_filter d :
  remove_tracking d
  = List.filter (fun kv => negb (is_tracking_key (fst kv))) d.
Proof.
  unfold remove_tracking. rewrite fold_dict_del.
  apply List.filter_ext_in. intros kv Hin. now rewrite in_tracking_keys.
Qed.

Lemma assoc_filter_keys {A} (p : string -> bool) k (d : list (string * A)) :
  assoc k (List.filter (fun kv => p (fst kv)) d)
  = if p k then assoc k d else None.
Proof.
  induction d as [|[k' v] d IH]; simpl; [now destruct (p k)|].
  destruct (p k') eqn:Ek'; simpl; destruct (String.eqb k' k) eqn:E;
    try (apply String.eqb_eq in E; subst k'; rewrite ?Ek' in * );
    first [exact IH | reflexivity | (rewrite IH; reflexivity)].
Qed.

(** C7, as stated, fails on its example: the slash before the query
    stays. *)
Lemma tracking_example_keeps_the_slash :
  normalize_link accept_all "https://example.com/a/?utm_source=x&b=2"
  = "example.com/a/?b=2"
  /\ normalize_link accept_all "https://example.com/a/?utm_source=x&b=2"
     <> "example.com/a?b=2".
Proof. split; [vm_compute; reflexivity|vm_compute; discriminate]. Qed.

(** C7, amended. For a link that parses, [normalize_link] deletes from
    the query exactly the parameters whose key, in lower case, starts
    with [utm_] or is [fbclid] or [gclid]; every other key keeps its
    whole list of values, blank ones included, and the result is built
    from the remaining parameters.  On the example of the specification
    the result is [example.com/a/?b=2]. *)
Theorem tracking_parameters_removed chk raw parsed :
  truthy raw = true ->
  urlparse chk (prepare raw) = Some parsed ->
  let query_params := parse_qs (query parsed) in
  let kept := List.filter (fun kv => negb (is_tracking_key (fst kv))) query_params in
  let new_query := urlencode kept in
  let norm := default EmptyString (hostname parsed) in
  let norm := if truthy (path parsed) then norm +:+ path parsed else norm in
  let norm := if truthy new_query then norm +:+ "?" +:+ new_query else norm in
  remove_tracking query_params = kept
  /\ (forall k, assoc k kept
                = if is_tracking_key k then None else assoc k query_params)
  /\ normalize_link chk raw = lower (trim_trailing_slash norm)
  /\ normalize_link chk "https://example.com/a/?utm_source=x&b=2"
     = "example.com/a/?b=2".
Proof.
  intros Hraw Hp query_params kept new_query norm0 norm1 norm.
  split; [apply remove_tracking_filter|]. split; [|split].
  - intros k. subst kept.
    rewrite (assoc_filter_keys (fun k => negb (is_tracking_key k))).
    now destruct (is_tracking_key k).
  - unfold normalize_link. rewrite Hraw, Hp. simpl.
    unfold assemble. rewrite remove_tracking_filter. reflexivity.
  - vm_compute. reflexivity.
Qed.

Lemma tracking_parameters_removed_witness :
  normalize_link accept_all "http://h/p?a=1&UTM_x=9&b=&a=2&c&gclid=7"
  = "h/p?a=1&a=2&b=&c=".
Proof.
  pose proof (tracking_parameters_removed accept_all
                "http://h/p?a=1&UTM_x=9&b=&a=2&c&gclid=7"
                {| scheme := "http"; netloc := "h"; path := "/p"; params := "";
                   query := "a=1&UTM_x=9&b=&a=2&c&gclid=7"; fragment := "" |}
                eq_refl eq_refl) as (_ & _ & E & _).
  rewrite E. vm_compute. reflexivity.
Defined.

Lemma partition_absent c s :
  contains c s = false -> partition c s = (s, None).
Proof.
  induction s as [|a r IH]; simpl; [reflexivity|].
  destruct (char_eqb a c); simpl; [discriminate|].
  intros H. now rewrite (IH H).
Qed.

Lemma no_cutting_char s :
  all_chars (fun c => negb (cutting_char c)) s = true ->
  contains ":" s = false /\ contains "?" s = false /\ contains "#" s = false
  /\ contains ";" s = false /\ remove_where unsafe_url_byte s = s.
Proof.
  induction s as [|a r IH]; simpl; [auto|].
  intros H. apply andb_true_iff in H as [Ha Hr].
  destruct (IH Hr) as (H1 & H2 & H3 & H4 & H5).
  rewrite H1, H2, H3, H4, H5.
  unfold cutting_char in Ha. apply negb_true_iff in Ha.
  repeat (apply orb_false_iff in Ha as [Ha ?]).
  repeat match goal with H : _ = false |- _ => rewrite H end.
  auto.
Qed.

Lemma space_is_C0 c : is_space c = true -> C0_control_or_space c = true.
Proof. each_char c; discriminate. Qed.

Lemma lstrip_space_fixed y :
  lstrip_where C0_control_or_space y = y -> lstrip_where is_space y = y.
Proof.
  destruct y as [|c r]; [reflexivity|]. intros H.
  pose proof (lstrip_where_head C0_control_or_space (String c r)) as Hh.
  rewrite H in Hh. simpl.
  destruct (is_space c) eqn:E; [|reflexivity].
  apply space_is_C0 in E. congruence.
Qed.

(** A plain text in lower case that ends in no slash (or is the lone
    [/]) is its own normal form. *)
Lemma normalize_link_fixed chk y :
  plain_text y = true ->
  lower y = y ->
  y = "/" \/ endswith_char "/" y = false ->
  normalize_link chk y = y.
Proof.
  intros Hp Hlow Hend.
  unfold plain_text in Hp.
  repeat (apply andb_true_iff in Hp as [Hp ?]).
  match goal with H : negb (startswith _ _) = true |- _ =>
    apply negb_true_iff in H; rename H into Hss end.
  repeat match goal with H : String.eqb _ _ = true |- _ =>
    apply String.eqb_eq in H end.
  destruct (no_cutting_char y Hp) as (Hc & Hq & Hh & Hs & Hrm).
  assert (Hstrip : strip y = y).
  { unfold strip. rewrite lstrip_space_fixed by assumption. assumption. }
  assert (Hprep : prepare y = y).
  { unfold prepare. rewrite Hstrip, Hss. reflexivity. }
  assert (Hparse : urlparse chk y
                   = Some {| scheme := ""; netloc := ""; path := y; params := "";
                             query := ""; fragment := "" |}).
  { unfold urlparse, urlsplit.
    match goal with H : lstrip_where C0_control_or_space y = y |- _ =>
      rewrite H end.
    rewrite Hrm. unfold split_scheme. rewrite (partition_absent ":" y Hc).
    rewrite Hss.
    cbn [contains andb orb negb].
    rewrite (partition_absent "#" y Hh), (partition_absent "?" y Hq).
    cbn [scheme path in_list uses_params existsb String.eqb orb andb].
    rewrite Hs. reflexivity. }
  unfold normalize_link. rewrite Hprep, Hparse.
  destruct y as [|c r]; [reflexivity|].
  cbn [truthy negb].
  rewrite trim_trailing_slash_spec.
  replace (assemble _) with (String c r) by reflexivity.
  destruct Hend as [->|Hend]; [reflexivity|].
  rewrite rstrip_slash_fixed by assumption.
  destruct (String.eqb (String c r) "/") eqn:E; [|assumption].
  apply String.eqb_eq in E. rewrite E. reflexivity.
Qed.

(** C9, as stated, fails: the canonical form of a link can be read again
    as a link with a scheme, with whitespace to trim, or with parameters
    to regroup. *)
Lemma normalize_link_not_idempotent :
  normalize_link accept_all "urn:uuid:abc" = "uuid:abc"
  /\ normalize_link accept_all (normalize_link accept_all "urn:uuid:abc") = "abc"
  /\ normalize_link accept_all (normalize_link accept_all "urn:uuid:abc")
     <> normalize_link accept_all "urn:uuid:abc".
Proof.
  split; [vm_compute; reflexivity|].
  split; [vm_compute; reflexivity|vm_compute; discriminate].
Qed.

(** Two more links whose canonical form is not a fixed point. *)
Example not_idempotent_with_space :
  normalize_link accept_all "https://example.com/a /" = "example.com/a "
  /\ normalize_link accept_all "example.com/a " = "example.com/a".
Proof. split; vm_compute; reflexivity. Qed.

Example not_idempotent_with_mixed_case_keys :
  normalize_link accept_all "https://example.com/?A=1&b=2&a=3"
  = "example.com/?a=1&b=2&a=3"
  /\ normalize_link accept_all "example.com/?a=1&b=2&a=3"
     = "example.com/?a=1&a=3&b=2".
Proof. split; vm_compute; reflexivity. Qed.

(** [normalize_link] is idempotent on every input whose canonical form
    is a plain text, also when the input did not parse. *)
Lemma normalize_link_idempotent_on_plain chk x :
  plain_text (normalize_link chk x) = true ->
  normalize_link chk (normalize_link chk x) = normalize_link chk x.
Proof.
  intros Hp. destruct (normalize_link_shape chk x) as [Hlow Hend].
  now apply normalize_link_fixed.
Qed.

Example idempotent_on_plain_canonical_form :
  normalize_link accept_all
    (normalize_link accept_all "HTTPS://Example.com/News/Item-1/?utm_source=feed#top")
  = normalize_link accept_all "HTTPS://Example.com/News/Item-1/?utm_source=feed#top".
Proof.
  apply (normalize_link_idempotent_on_plain accept_all
           "HTTPS://Example.com/News/Item-1/?utm_source=feed#top").
  vm_compute. reflexivity.
Qed.

Example plain_canonical_form :
  normalize_link accept_all "HTTPS://Example.com/News/Item-1/?utm_source=feed#top"
  = "example.com/news/item-1".
Proof. vm_compute. reflexivity. Qed.

(* ================================================================= *)
(** ** Paging through the stored rows *)

Lemma page_size_pos : (0 < page_size)%nat.
Proof. unfold page_size. lia. Qed.

Lemma take_page_nil {A} (l : list A) : take page_size l = [] -> l = [].
Proof.
  pose proof page_size_pos as Hp.
  destruct l as [|a l]; [reflexivity|].
  destruct page_size; [lia|]. discriminate.
Qed.

(** With enough fuel, and when no select raises, the loop collects every
    row from [offset] on. *)
Lemma fetch_pages_all st (Hok : forall off, select_error st off = None) fuel :
  forall offset acc tr,
    (length (table st) - offset <= fuel * page_size)%nat ->
    fst (fetch_pages fuel st offset acc tr)
    = Some (acc ++ drop offset (table st)).
Proof.
  pose proof page_size_pos as Hp.
  induction fuel as [|fuel IH]; intros offset acc tr Hfuel;
    cbn [fetch_pages]; unfold select_range; rewrite Hok;
    destruct (take page_size (drop offset (table st))) as [|r batch] eqn:E.
  - apply take_page_nil in E. rewrite E, app_nil_r. reflexivity.
  - assert (Hlen : (length (drop offset (table st)) = 0)%nat)
      by (rewrite length_drop; lia).
    apply length_zero_iff_nil in Hlen. rewrite Hlen in E.
    rewrite take_nil in E. discriminate.
  - apply take_page_nil in E. rewrite E, app_nil_r. reflexivity.
  - rewrite <- E.
    destruct (length (take page_size (drop offset (table st))) <? page_size)%nat
      eqn:Hshort.
    + apply Nat.ltb_lt in Hshort. rewrite length_take in Hshort.
      rewrite take_ge by lia. reflexivity.
    + apply Nat.ltb_ge in Hshort. rewrite length_take, length_drop in Hshort.
      rewrite IH by lia.
      rewrite <- app_assoc. rewrite <- drop_drop, take_drop. reflexivity.
Qed.

(** The deduplication works from the whole table when the store
    answers every select. *)
Lemma load_existing_all st :
  (forall off, select_error st off = None) ->
  fst (load_existing st) = table st.
Proof.
  intros Hok. unfold load_existing.
  pose proof (fetch_pages_all st Hok (length (table st)) 0%nat [] []) as H.
  destruct (fetch_pages _ st 0%nat [] []) as [rows tr]. simpl in *.
  pose proof page_size_pos.
  rewrite H by nia. reflexivity.
Qed.

(** When a select raises, the deduplication works from no row. *)
Lemma load_existing_failed st err :
  select_error st 0%nat = Some err -> fst (load_existing st) = [].
Proof.
  intros H. unfold load_existing.
  destruct (table st); cbn [length fetch_pages]; unfold select_range;
    rewrite H; reflexivity.
Qed.

(* ================================================================= *)
(** ** Reading a canonical form again *)

Lemma append_nil b : "" +:+ b = b.
Proof. reflexivity. Qed.

Lemma append_cons c a b : String c a +:+ b = String c (a +:+ b).
Proof. reflexivity. Qed.

Lemma append_empty_r s : s +:+ "" = s.
Proof.
  induction s as [|c r IH]; [reflexivity|]. now rewrite append_cons, IH.
Qed.

Lemma append_assoc a b c : (a +:+ b) +:+ c = a +:+ (b +:+ c).
Proof.
  induction a as [|x a IH]; [reflexivity|]. now rewrite !append_cons, IH.
Qed.

Lemma lower_app a b : lower (a +:+ b) = lower a +:+ lower b.
Proof.
  induction a as [|c a IH]; [reflexivity|].
  rewrite append_cons. simpl. now rewrite IH.
Qed.

Lemma all_chars_app p a b :
  all_chars p (a +:+ b) = all_chars p a && all_chars p b.
Proof.
  induction a as [|c a IH]; [reflexivity|].
  rewrite append_cons. simpl. now rewrite IH, andb_assoc.
Qed.

Lemma all_chars_impl (p q : ascii -> bool) s :
  (forall c, p c = true -> q c = true) ->
  all_chars p s = true -> all_chars q s = true.
Proof.
  intros Hpq. induction s as [|c r IH]; simpl; [reflexivity|].
  intros H. apply andb_true_iff in H as [Hc Hr].
  now rewrite (Hpq c Hc), (IH Hr).
Qed.

Lemma all_chars_lower p s :
  (forall c, p c = true -> p (lower_char c) = true) ->
  all_chars p s = true -> all_chars p (lower s) = true.
Proof.
  intros Hp. induction s as [|c r IH]; simpl; [reflexivity|].
  intros H. apply andb_true_iff in H as [Hc Hr].
  now rewrite (Hp c Hc), (IH Hr).
Qed.

Lemma all_chars_contains p c s :
  all_chars p s = true -> p c = false -> contains c s = false.
Proof.
  intros Hs Hc. induction s as [|a r IH]; simpl; [reflexivity|].
  simpl in Hs. apply andb_true_iff in Hs as [Ha Hr].
  rewrite (IH Hr), orb_false_r.
  unfold char_eqb. destruct (Ascii.eqb a c) eqn:E; [|reflexivity].
  apply Ascii.eqb_eq in E. congruence.
Qed.

Lemma all_chars_lstrip p s :
  all_chars (fun c => negb (p c)) s = true -> lstrip_where p s = s.
Proof.
  destruct s as [|c r]; simpl; [reflexivity|].
  intros H. apply andb_true_iff in H as [Hc _].
  apply negb_true_iff in Hc. now rewrite Hc.
Qed.

Lemma all_chars_rstrip_fixed p s :
  all_chars (fun c => negb (p c)) s = true -> rstrip_where p s = s.
Proof.
  induction s as [|c r IH]; simpl; [reflexivity|].
  intros H. apply andb_true_iff in H as [Hc Hr].
  apply negb_true_iff in Hc. rewrite (IH Hr), Hc. now destruct r.
Qed.

Lemma all_chars_remove p s :
  all_chars (fun c => negb (p c)) s = true -> remove_where p s = s.
Proof.
  induction s as [|c r IH]; simpl; [reflexivity|].
  intros H. apply andb_true_iff in H as [Hc Hr].
  apply negb_true_iff in Hc. now rewrite Hc, (IH Hr).
Qed.

(** [rstrip] leaves a prefix. *)
Lemma rstrip_where_prefix p s :
  exists t, s = rstrip_where p s +:+ t.
Proof.
  induction s as [|c r [t IH]]; simpl; [now exists EmptyString|].
  destruct (rstrip_where p r) as [|c' r'] eqn:E.
  - destruct (p c); [now exists (String c r)|].
    exists r. reflexivity.
  - exists t. rewrite append_cons. now rewrite <- IH.
Qed.

Lemma all_chars_rstrip p q s :
  all_chars p s = true -> all_chars p (rstrip_where q s) = true.
Proof.
  intros H. destruct (rstrip_where_prefix q s) as [t Ht].
  rewrite Ht, all_chars_app in H. now apply andb_true_iff in H as [H _].
Qed.

Lemma startswith_app pre a t :
  startswith pre a = true -> startswith pre (a +:+ t) = true.
Proof.
  revert a. induction pre as [|x pre IH]; intros a; simpl; [reflexivity|].
  destruct a as [|y a]; [discriminate|]. rewrite append_cons. simpl.
  intros H. apply andb_true_iff in H as [Hx Ha].
  now rewrite Hx, (IH a Ha).
Qed.

Lemma startswith_rstrip pre q s :
  startswith pre s = false -> startswith pre (rstrip_where q s) = false.
Proof.
  intros H. destruct (rstrip_where_prefix q s) as [t Ht].
  destruct (startswith pre (rstrip_where q s)) eqn:E; [|reflexivity].
  apply (startswith_app pre _ t) in E. rewrite <- Ht in E. congruence.
Qed.

Lemma lower_char_slash_l c : char_eqb "/" (lower_char c) = char_eqb "/" c.
Proof. each_char c. Qed.

Lemma startswith_slashes_lower s :
  startswith "//" (lower s) = startswith "//" s.
Proof.
  destruct s as [|a [|b r]]; cbn [startswith lower];
    rewrite ?lower_char_slash_l; reflexivity.
Qed.

Lemma all_chars_endswith p c s :
  all_chars p s = true -> p c = false -> endswith_char c s = false.
Proof.
  intros Hs Hc. induction s as [|a r IH]; [reflexivity|].
  simpl in Hs. apply andb_true_iff in Hs as [Ha Hr].
  destruct r as [|b r'].
  - simpl. unfold char_eqb. destruct (Ascii.eqb a c) eqn:E; [|reflexivity].
    apply Ascii.eqb_eq in E. congruence.
  - exact (IH Hr).
Qed.

Lemma endswith_app c a t :
  t <> EmptyString -> endswith_char c (a +:+ t) = endswith_char c t.
Proof.
  intros Ht. induction a as [|x a IH]; [reflexivity|].
  rewrite append_cons. destruct (a +:+ t) as [|y r] eqn:E.
  - destruct a; [contradiction|discriminate].
  - exact IH.
Qed.

Lemma quote_plus_cons c r : quote_plus (String c r) = enc c +:+ quote_plus r.
Proof.
  unfold enc. simpl. destruct (always_safe c); [reflexivity|].
  destruct (char_eqb c " "); reflexivity.
Qed.

Lemma decode_enc c X :
  unquote_to_bytes (plus_to_space (lower (enc c) +:+ X))
  = String (lower_char c) (unquote_to_bytes (plus_to_space X)).
Proof. destruct c as [[] [] [] [] [] [] [] []]; reflexivity. Qed.

Lemma lower_enc_lower c : lower (enc (lower_char c)) = lower (enc c).
Proof. destruct c as [[] [] [] [] [] [] [] []]; reflexivity. Qed.

Lemma enc_chars c : all_chars enc_char (enc c) = true.
Proof. destruct c as [[] [] [] [] [] [] [] []]; reflexivity. Qed.

(** Decoding the escapes of the lower-cased encoding of a text gives
    the text in lower case. *)
Lemma unquote_to_bytes_lower_quote s :
  unquote_to_bytes (plus_to_space (lower (quote_plus s))) = lower s.
Proof.
  induction s as [|c r IH]; [reflexivity|].
  rewrite quote_plus_cons, lower_app, decode_enc, IH. reflexivity.
Qed.

(** *** Reading UTF-8 *)

Lemma utf8_decode_cons pending c r :
  utf8_decode pending (String c r)
  = match pending with
    | None => utf8_start c r
    | Some p =>
        if in_range (next_lo p) (next_hi p) c then
          match pending_count p with
          | S (S n) =>
              utf8_decode
                (Some {| pending_bytes := pending_bytes p +:+ String c EmptyString;
                         pending_count := S n;
                         next_lo := 128; next_hi := 191 |})
                r
          | _ => pending_bytes p +:+ String c (utf8_decode None r)
          end
        else replacement_character +:+ utf8_start c r
    end.
Proof. destruct pending; reflexivity. Qed.

Lemma replacement_decoded X :
  utf8_decode None (replacement_character +:+ X)
  = replacement_character +:+ utf8_decode None X.
Proof. reflexivity. Qed.

Lemma append_snoc a c t : (a +:+ String c EmptyString) +:+ t = a +:+ String c t.
Proof. now rewrite append_assoc, append_cons, append_nil. Qed.

(** What the decoder gives is well-formed: decoding it again changes
    nothing.  A pending sequence is one that the decoder reaches by
    reading its bytes. *)
Lemma utf8_decode_fixed s : forall pending,
  (forall p, pending = Some p ->
     forall t, utf8_decode None (pending_bytes p +:+ t) = utf8_decode (Some p) t) ->
  utf8_decode None (utf8_decode pending s) = utf8_decode pending s.
Proof.
  induction s as [|c r IH]; intros pending Hp.
  - destruct pending; reflexivity.
  - assert (Hstart : utf8_decode None (utf8_start c r) = utf8_start c r).
    { unfold utf8_start. destruct (ord c <? 128) eqn:Ec.
      - rewrite utf8_decode_cons. unfold utf8_start. rewrite Ec.
        f_equal. apply IH. intros p [=].
      - destruct (utf8_lead c) as [[[n lo] hi]|] eqn:El.
        + apply IH. intros p [= <-] t. cbn [pending_bytes].
          rewrite append_cons, append_nil, utf8_decode_cons.
          unfold utf8_start. now rewrite Ec, El.
        + rewrite replacement_decoded. f_equal. apply IH. intros p [=]. }
    rewrite utf8_decode_cons. destruct pending as [p|]; [|exact Hstart].
    destruct (in_range (next_lo p) (next_hi p) c) eqn:Er.
    + destruct (pending_count p) as [|[|n]] eqn:En.
      * rewrite (Hp p eq_refl), utf8_decode_cons, Er, En.
        f_equal. f_equal. apply IH. intros q [=].
      * rewrite (Hp p eq_refl), utf8_decode_cons, Er, En.
        f_equal. f_equal. apply IH. intros q [=].
      * apply IH. intros q [= <-] t. cbn [pending_bytes].
        rewrite append_snoc, (Hp p eq_refl), utf8_decode_cons, Er, En.
        reflexivity.
    + rewrite replacement_decoded, Hstart. reflexivity.
Qed.

Lemma decode_utf8_replace_text s : utf8_text (decode_utf8_replace s).
Proof. apply utf8_decode_fixed. intros p [=]. Qed.

Lemma unquote_text s : utf8_text (unquote s).
Proof. apply decode_utf8_replace_text. Qed.

Lemma lower_char_high c : (ord c <? 128) = false -> lower_char c = c.
Proof. each_char c; discriminate. Qed.

Lemma lower_char_ascii c :
  (ord c <? 128) = true -> (ord (lower_char c) <? 128) = true.
Proof. each_char c; discriminate. Qed.

Lemma utf8_lead_range c n lo hi : utf8_lead c = Some (n, lo, hi) -> 128 <= lo.
Proof.
  unfold utf8_lead. repeat case_match; intros [= <- <- <-]; lia.
Qed.

Lemma in_range_lower lo hi c :
  128 <= lo -> in_range lo hi (lower_char c) = in_range lo hi c.
Proof.
  intros Hlo. destruct (ord c <? 128) eqn:Ec.
  - pose proof (lower_char_ascii c Ec) as El. unfold in_range.
    apply Z.ltb_lt in Ec, El.
    replace (lo <=? ord (lower_char c)) with false by (symmetry; apply Z.leb_gt; lia).
    replace (lo <=? ord c) with false by (symmetry; apply Z.leb_gt; lia).
    reflexivity.
  - now rewrite (lower_char_high c Ec).
Qed.

Lemma in_range_high lo hi c :
  128 <= lo -> in_range lo hi c = true -> (ord c <? 128) = false.
Proof.
  unfold in_range. intros Hlo H. apply andb_true_iff in H as [H _].
  apply Z.leb_le in H. apply Z.ltb_ge. lia.
Qed.

(** Lower case, which changes ASCII letters only, goes through the
    decoder. *)
Lemma utf8_decode_lower s : forall pending,
  (forall p, pending = Some p ->
     lower (pending_bytes p) = pending_bytes p /\ 128 <= next_lo p) ->
  utf8_decode pending (lower s) = lower (utf8_decode pending s).
Proof.
  induction s as [|c r IH]; intros pending Hp.
  - destruct pending; reflexivity.
  - change (lower (String c r)) with (String (lower_char c) (lower r)).
    assert (Hstart : utf8_start (lower_char c) (lower r) = lower (utf8_start c r)).
    { unfold utf8_start. destruct (ord c <? 128) eqn:Ec.
      - rewrite (lower_char_ascii c Ec). cbn [lower]. f_equal.
        apply IH. intros p [=].
      - rewrite (lower_char_high c Ec), Ec.
        destruct (utf8_lead c) as [[[n lo] hi]|] eqn:El.
        + apply IH. intros p [= <-]. cbn [pending_bytes next_lo lower].
          rewrite (lower_char_high c Ec). split; [reflexivity|].
          eapply utf8_lead_range, El.
        + rewrite lower_app. f_equal. apply IH. intros p [=]. }
    rewrite !utf8_decode_cons. destruct pending as [p|]; [|exact Hstart].
    destruct (Hp p eq_refl) as [Hpb Hlo].
    rewrite (in_range_lower _ _ c Hlo).
    destruct (in_range (next_lo p) (next_hi p) c) eqn:Er.
    + pose proof (lower_char_high c (in_range_high _ _ c Hlo Er)) as Hc.
      rewrite Hc.
      destruct (pending_count p) as [|[|n]].
      * rewrite lower_app, Hpb. cbn [lower]. rewrite Hc. f_equal. f_equal.
        apply IH. intros q [=].
      * rewrite lower_app, Hpb. cbn [lower]. rewrite Hc. f_equal. f_equal.
        apply IH. intros q [=].
      * apply IH. intros q [= <-]. cbn [pending_bytes next_lo].
        rewrite lower_app, Hpb. cbn [lower]. rewrite Hc. split; [reflexivity|lia].
    + rewrite lower_app, Hstart. reflexivity.
Qed.

Lemma utf8_text_lower s : utf8_text s -> utf8_text (lower s).
Proof.
  unfold utf8_text, decode_utf8_replace. intros H.
  rewrite utf8_decode_lower by (intros p [=]). now rewrite H.
Qed.

(** Decoding the lower-cased encoding of a well-formed text gives the
    text in lower case. *)
Lemma unquote_lower_quote s :
  utf8_text s -> unquote (plus_to_space (lower (quote_plus s))) = lower s.
Proof.
  intros H. unfold unquote. rewrite unquote_to_bytes_lower_quote.
  now apply utf8_text_lower.
Qed.

Lemma lower_quote_lower s :
  lower (quote_plus (lower s)) = lower (quote_plus s).
Proof.
  induction s as [|c r IH]; [reflexivity|].
  change (lower (String c r)) with (String (lower_char c) (lower r)).
  rewrite !quote_plus_cons, !lower_app, lower_enc_lower, IH.
  reflexivity.
Qed.

Lemma quote_plus_chars s : all_chars enc_char (quote_plus s) = true.
Proof.
  induction s as [|c r IH]; [reflexivity|].
  now rewrite quote_plus_cons, all_chars_app, enc_chars, IH.
Qed.

Lemma enc_char_lower c : enc_char c = true -> enc_char (lower_char c) = true.
Proof. each_char c; discriminate. Qed.

Lemma enc_char_query c : enc_char c = true -> query_char c = true.
Proof. unfold query_char. now intros ->. Qed.

Lemma query_char_lower c :
  query_char c = true -> query_char (lower_char c) = true.
Proof. each_char c; discriminate. Qed.

Lemma lower_quote_chars s : all_chars enc_char (lower (quote_plus s)) = true.
Proof.
  apply all_chars_lower; [exact enc_char_lower|apply quote_plus_chars].
Qed.

(** Splitting and joining. *)
Lemma split_on_absent c a : contains c a = false -> split_on c a = [a].
Proof.
  induction a as [|x a IH]; simpl; [reflexivity|].
  destruct (char_eqb x c); simpl; [discriminate|].
  intros H. now rewrite (IH H).
Qed.

Lemma split_on_app c a b :
  contains c a = false ->
  split_on c (a +:+ String c b) = a :: split_on c b.
Proof.
  induction a as [|x a IH]; intros H.
  - rewrite append_nil. simpl. unfold char_eqb. now rewrite Ascii.eqb_refl.
  - rewrite append_cons. simpl in *.
    destruct (char_eqb x c); simpl in *; [discriminate|].
    now rewrite (IH H).
Qed.

Lemma split_join c parts :
  parts <> [] ->
  Forall (fun w => contains c w = false) parts ->
  split_on c (join (String c EmptyString) parts) = parts.
Proof.
  induction parts as [|w ws IH]; [contradiction|]. intros _ Hall.
  inversion Hall as [|? ? Hw Hws]; subst.
  destruct ws as [|w' ws']; [now apply split_on_absent|].
  change (join (String c "") (w :: w' :: ws'))
    with (w +:+ String c "" +:+ join (String c "") (w' :: ws')).
  rewrite append_cons, append_nil, split_on_app by assumption.
  rewrite IH; [reflexivity|discriminate|assumption].
Qed.

Lemma partition_app c a b :
  contains c a = false -> partition c (a +:+ String c b) = (a, Some b).
Proof.
  induction a as [|x a IH]; intros H.
  - rewrite append_nil. simpl. unfold char_eqb. now rewrite Ascii.eqb_refl.
  - rewrite append_cons. simpl in *.
    destruct (char_eqb x c); simpl in *; [discriminate|].
    now rewrite (IH H).
Qed.

Lemma lower_join sep parts :
  lower (join sep parts) = join (lower sep) (map lower parts).
Proof.
  induction parts as [|w ws IH]; [reflexivity|].
  destruct ws as [|w' ws']; [reflexivity|].
  change (join sep (w :: w' :: ws')) with (w +:+ sep +:+ join sep (w' :: ws')).
  rewrite !lower_app, IH. reflexivity.
Qed.

Lemma urlencode_pairs d :
  urlencode d = join "&" (map encode_pair (pairs d)).
Proof.
  unfold urlencode, pairs. f_equal.
  induction d as [|[k vs] d IH]; [reflexivity|].
  simpl. rewrite map_app, IH. f_equal.
  rewrite map_map. reflexivity.
Qed.

Lemma enc_char_not_amp c :
  enc_char c = true -> negb (char_eqb c "&") = true.
Proof. each_char c; discriminate. Qed.

Lemma encoded_pair_shape p :
  let e := lower (encode_pair p) in
  contains "&" e = false
  /\ truthy e = true
  /\ partition "=" e = (lower (quote_plus (fst p)), Some (lower (quote_plus (snd p)))).
Proof.
  unfold encode_pair. rewrite !lower_app. cbn [lower]. 
  change (lower_char "=") with "="%char.
  split; [|split].
  - eapply all_chars_contains with (p := fun c => negb (char_eqb c "&")); [|reflexivity].
    rewrite !all_chars_app.
    rewrite !(all_chars_impl enc_char _ _ enc_char_not_amp (lower_quote_chars _)).
    reflexivity.
  - destruct (lower (quote_plus p.1)); reflexivity.
  - apply partition_app.
    eapply all_chars_contains with (p := enc_char); [apply lower_quote_chars|reflexivity].
Qed.

(** Reading an encoded query in lower case gives the pairs in lower
    case. *)
Lemma parse_qsl_encoded ps :
  Forall utf8_pair ps ->
  parse_qsl (lower (join "&" (map encode_pair ps))) = map lower_pair ps.
Proof.
  intros Hu.
  destruct ps as [|p0 ps0]; [reflexivity|].
  set (ps := p0 :: ps0) in *.
  rewrite lower_join, map_map. unfold parse_qsl.
  change (lower "&") with "&".
  rewrite split_join.
  - induction Hu as [|p ps [Hk Hv] Hps IH]; [reflexivity|].
    cbn [map flat_map].
    destruct (encoded_pair_shape p) as (_ & -> & ->).
    rewrite IH. unfold default, from_option, id.
    rewrite !unquote_lower_quote by assumption. reflexivity.
  - discriminate.
  - apply Forall_forall. intros w Hw.
    apply list_elem_of_fmap in Hw as (p & -> & _).
    apply encoded_pair_shape.
Qed.

Lemma dict_append_new k v (acc : qdict) :
  in_list k (map fst acc) = false ->
  dict_append k v acc = acc ++ [(k, [v])].
Proof.
  induction acc as [|[k' vs] acc IH]; simpl; [reflexivity|].
  rewrite (String.eqb_sym k k').
  destruct (String.eqb k' k); simpl; [discriminate|].
  intros H. now rewrite (IH H).
Qed.

Lemma dict_append_last k v l (acc : qdict) :
  in_list k (map fst acc) = false ->
  dict_append k v (acc ++ [(k, l)]) = acc ++ [(k, l ++ [v])].
Proof.
  induction acc as [|[k' vs] acc IH]; simpl.
  - now rewrite String.eqb_refl.
  - rewrite (String.eqb_sym k k').
    destruct (String.eqb k' k); simpl; [discriminate|].
    intros H. now rewrite (IH H).
Qed.

Lemma add_values k vs : forall l (acc : qdict),
  in_list k (map fst acc) = false ->
  fold_left add_pair (map (pair k) vs) (acc ++ [(k, l)])
  = acc ++ [(k, l ++ vs)].
Proof.
  induction vs as [|v vs IH]; intros l acc H; simpl.
  - now rewrite app_nil_r.
  - unfold add_pair at 2. simpl. rewrite dict_append_last by assumption.
    rewrite IH by assumption. now rewrite <- app_assoc.
Qed.

Lemma in_list_app k l1 l2 :
  in_list k (l1 ++ l2) = in_list k l1 || in_list k l2.
Proof. unfold in_list. apply existsb_app. Qed.

(** A dictionary with distinct keys and no empty list of values is what
    regrouping its pairs gives. *)
Lemma regroup_pairs (d : qdict) : forall acc : qdict,
  distinct (map fst acc ++ map fst d) = true ->
  Forall (fun kv => snd kv <> []) d ->
  fold_left add_pair (pairs d) acc = acc ++ d.
Proof.
  induction d as [|[k vs] d IH]; intros acc Hd Hne; simpl.
  - now rewrite app_nil_r.
  - inversion Hne as [|? ? Hvs Hne']; subst. simpl in Hvs.
    destruct vs as [|v vs]; [contradiction|].
    assert (Hk : in_list k (map fst acc) = false).
    { clear -Hd. induction acc as [|[k' l] acc IHa]; [reflexivity|].
      simpl in Hd. apply andb_true_iff in Hd as [Hk' Hd].
      apply negb_true_iff in Hk'. rewrite in_list_app in Hk'.
      apply orb_false_iff in Hk' as [_ Hk']. simpl in Hk'.
      apply orb_false_iff in Hk' as [Hk' _].
      simpl. rewrite String.eqb_sym, Hk'. simpl. now apply IHa. }
    unfold pairs. simpl. rewrite fold_left_app. simpl.
    unfold add_pair at 3. simpl. rewrite dict_append_new by assumption.
    rewrite add_values by assumption. simpl.
    fold (pairs d). rewrite IH; [now rewrite <- app_assoc| |assumption].
    rewrite map_app. simpl. now rewrite <- app_assoc.
Qed.

Lemma pairs_lowered d : pairs (lowered d) = map lower_pair (pairs d).
Proof.
  unfold pairs, lowered.
  induction d as [|[k vs] d IH]; [reflexivity|].
  simpl. rewrite map_app, IH. f_equal.
  rewrite !map_map. reflexivity.
Qed.

Lemma lowered_values d :
  Forall (fun kv : string * list string => snd kv <> []) d ->
  Forall (fun kv : string * list string => snd kv <> []) (lowered d).
Proof.
  unfold lowered. induction 1 as [|[k vs] d Hk Hd IH]; constructor; [|exact IH].
  simpl in *. now destruct vs.
Qed.

(** The keys and values [parse_qs] gives are well-formed UTF-8. *)
Lemma pairs_text d : Forall utf8_entry d -> Forall utf8_pair (pairs d).
Proof.
  unfold pairs. induction 1 as [|[k vs] d [Hk Hvs] Hd IH]; [constructor|].
  cbn [flat_map]. apply Forall_app. split; [|exact IH].
  simpl in *. induction Hvs as [|v vs Hv Hvs IHv]; constructor; [|exact IHv].
  split; assumption.
Qed.

Lemma parse_qsl_text qs : Forall utf8_pair (parse_qsl qs).
Proof.
  unfold parse_qsl. induction (split_on "&" qs) as [|w ws IH]; [constructor|].
  cbn [flat_map]. apply Forall_app. split; [|exact IH].
  destruct (truthy w); [|constructor].
  destruct (partition "=" w) as [n v]. constructor; [|constructor].
  split; apply unquote_text.
Qed.

Lemma dict_append_text k v d :
  utf8_text k -> utf8_text v ->
  Forall utf8_entry d -> Forall utf8_entry (dict_append k v d).
Proof.
  intros Hk Hv. induction 1 as [|[k' vs] d [Hk' Hvs] Hd IH]; simpl.
  - constructor; [|constructor]. split; [exact Hk|]. now constructor.
  - destruct (String.eqb k' k); constructor; try assumption.
    + split; [exact Hk'|]. apply Forall_app. split; [exact Hvs|].
      now constructor.
    + now split.
Qed.

Lemma parse_qs_text s : Forall utf8_entry (parse_qs s).
Proof.
  unfold parse_qs. pose proof (parse_qsl_text s) as H.
  assert (H0 : Forall utf8_entry (@nil (string * list string))) by constructor.
  revert H0. generalize (@nil (string * list string)) as acc.
  induction H as [|[k v] l [Hk Hv] Hl IH]; intros acc H0; simpl; [exact H0|].
  apply IH. now apply dict_append_text.
Qed.

Lemma kept_text d :
  Forall utf8_entry d -> Forall utf8_entry (remove_tracking d).
Proof.
  rewrite remove_tracking_filter. intros H.
  apply Forall_forall. intros kv Hin.
  apply list_elem_of_In, List.filter_In in Hin as [Hin _].
  rewrite Forall_forall in H. apply H. now apply list_elem_of_In.
Qed.

(** Reading the lower-cased encoding of a dictionary gives the
    dictionary in lower case, when lower case keeps its keys apart. *)
Lemma parse_qs_encoded d :
  Forall utf8_entry d ->
  distinct (map fst (lowered d)) = true ->
  Forall (fun kv => snd kv <> []) d ->
  parse_qs (lower (urlencode d)) = lowered d.
Proof.
  intros Hu Hd Hne. unfold parse_qs.
  rewrite urlencode_pairs, parse_qsl_encoded by now apply pairs_text.
  rewrite <- pairs_lowered.
  change (fold_left add_pair (pairs (lowered d)) [] = lowered d).
  rewrite regroup_pairs; [reflexivity|exact Hd|now apply lowered_values].
Qed.

Lemma dict_append_values k v d :
  Forall nonempty_values d -> Forall nonempty_values (dict_append k v d).
Proof.
  induction 1 as [|[k' vs] d Hk Hd IH]; simpl.
  - repeat constructor. discriminate.
  - destruct (String.eqb k' k); constructor; try assumption.
    unfold nonempty_values. simpl. now destruct vs.
Qed.

Lemma parse_qs_values s : Forall nonempty_values (parse_qs s).
Proof.
  unfold parse_qs. generalize (parse_qsl s). intros l.
  assert (H : Forall nonempty_values (@nil (string * list string))) by constructor.
  revert H. generalize (@nil (string * list string)) as acc.
  induction l as [|nv l IH]; intros acc H; simpl; [exact H|].
  apply IH. now apply dict_append_values.
Qed.

Lemma kept_values d :
  Forall nonempty_values d -> Forall nonempty_values (remove_tracking d).
Proof.
  rewrite remove_tracking_filter. intros H.
  apply Forall_forall. intros kv Hin.
  apply list_elem_of_In, List.filter_In in Hin as [Hin _].
  rewrite Forall_forall in H. apply H. now apply list_elem_of_In.
Qed.

Lemma kept_no_tracking d : Forall no_tracking_key (remove_tracking d).
Proof.
  rewrite remove_tracking_filter. apply Forall_forall. intros kv Hin.
  apply list_elem_of_In, List.filter_In in Hin as [_ Hin].
  now apply negb_true_iff in Hin.
Qed.

Lemma is_tracking_key_lower k : is_tracking_key (lower k) = is_tracking_key k.
Proof. unfold is_tracking_key. now rewrite lower_idem. Qed.

Lemma remove_tracking_lowered d :
  Forall no_tracking_key d -> remove_tracking (lowered d) = lowered d.
Proof.
  rewrite remove_tracking_filter. unfold lowered.
  induction 1 as [|[k vs] d Hk Hd IH]; [reflexivity|].
  simpl. rewrite is_tracking_key_lower. unfold no_tracking_key in Hk.
  simpl in Hk. rewrite Hk. simpl. now rewrite IH.
Qed.

Lemma lower_urlencode_lowered d :
  lower (urlencode (lowered d)) = lower (urlencode d).
Proof.
  rewrite !urlencode_pairs, !lower_join, pairs_lowered, !map_map.
  f_equal. apply map_ext. intros [k v]. unfold encode_pair, lower_pair. simpl.
  rewrite !lower_app, !lower_quote_lower. reflexivity.
Qed.

Lemma truthy_app a b : truthy a = true -> truthy (a +:+ b) = true.
Proof. destruct a; [discriminate|reflexivity]. Qed.

Lemma truthy_join sep w ws : truthy w = true -> truthy (join sep (w :: ws)) = true.
Proof.
  intros H. destruct ws; [exact H|].
  change (truthy (w +:+ sep +:+ join sep (s :: ws)) = true).
  now apply truthy_app.
Qed.

Lemma truthy_lower s : truthy (lower s) = truthy s.
Proof. now destruct s. Qed.

Lemma truthy_urlencode d :
  d <> [] -> Forall nonempty_values d -> truthy (urlencode d) = true.
Proof.
  intros Hd Hne. rewrite urlencode_pairs.
  destruct d as [|[k vs] d]; [contradiction|].
  inversion Hne as [|? ? Hvs _]; subst. unfold nonempty_values in Hvs.
  simpl in Hvs. destruct vs as [|v vs]; [contradiction|].
  unfold pairs. simpl. apply truthy_join.
  unfold encode_pair. simpl. destruct (quote_plus k); reflexivity.
Qed.

Lemma all_chars_join p sep parts :
  all_chars p sep = true ->
  Forall (fun w => all_chars p w = true) parts ->
  all_chars p (join sep parts) = true.
Proof.
  intros Hsep. induction 1 as [|w ws Hw Hws IH]; [reflexivity|].
  destruct ws as [|w' ws']; [exact Hw|].
  change (join sep (w :: w' :: ws')) with (w +:+ sep +:+ join sep (w' :: ws')).
  now rewrite !all_chars_app, Hw, Hsep, IH.
Qed.

Lemma urlencode_chars d : all_chars query_char (urlencode d) = true.
Proof.
  rewrite urlencode_pairs. apply all_chars_join; [reflexivity|].
  apply Forall_forall. intros w Hw.
  apply list_elem_of_fmap in Hw as (p & -> & _).
  unfold encode_pair. rewrite !all_chars_app.
  rewrite !(all_chars_impl enc_char query_char _ enc_char_query (quote_plus_chars _)).
  reflexivity.
Qed.

Lemma canonical_char_facts c :
  canonical_char c = true ->
  negb (C0_control_or_space c) = true /\ negb (is_space c) = true
  /\ negb (unsafe_url_byte c) = true
  /\ negb (char_eqb c ":") = true /\ negb (char_eqb c "#") = true.
Proof. each_char c; first [discriminate | (intros _; repeat split)]. Qed.

Lemma plain_char_facts c :
  plain_char c = true ->
  negb (cutting_char c) = true /\ negb (C0_control_or_space c) = true
  /\ negb (is_space c) = true /\ negb (char_eqb c "?") = true
  /\ negb (char_eqb c ";") = true /\ plain_char (lower_char c) = true
  /\ canonical_char c = true.
Proof. each_char c; first [discriminate | (intros _; repeat split)]. Qed.

Lemma query_char_facts c :
  query_char c = true ->
  negb (char_eqb c "/") = true /\ canonical_char c = true.
Proof. each_char c; first [discriminate | (intros _; repeat split)]. Qed.

Lemma startswith_slashes_base b t :
  startswith "//" b = false -> startswith "//" (b +:+ String "?" t) = false.
Proof.
  destruct b as [|x [|y r]]; intros H; exact H.
Qed.

Lemma assemble_eq parsed :
  assemble parsed
  = let q := urlencode (remove_tracking (parse_qs (query parsed))) in
    if truthy q then host_and_path parsed +:+ "?" +:+ q
    else host_and_path parsed.
Proof.
  unfold assemble, host_and_path.
  destruct (truthy (path parsed)) eqn:E; [reflexivity|].
  apply truthy_false in E. rewrite E, append_empty_r. reflexivity.
Qed.

Lemma trim_no_slash norm :
  endswith_char "/" norm = false -> trim_trailing_slash norm = norm.
Proof. unfold trim_trailing_slash. now intros ->. Qed.

Lemma query_end b q :
  truthy q = true -> all_chars query_char q = true ->
  endswith_char "/" (b +:+ "?" +:+ q) = false.
Proof.
  intros Hq Hc. apply truthy_true in Hq.
  rewrite endswith_app by (destruct q; discriminate).
  rewrite (endswith_app "/" "?" q Hq).
  now apply (all_chars_endswith query_char).
Qed.

Lemma hostname_without_netloc p : netloc p = EmptyString -> hostname p = None.
Proof. unfold hostname. now intros ->. Qed.

(** A plain base followed by the lower-cased encoding of a query
    dictionary is its own normal form, when lower case keeps the keys of
    the dictionary apart and none of them is a tracking key. *)
Lemma normalize_link_query_fixed chk b d :
  all_chars plain_char b = true -> startswith "//" b = false ->
  lower b = b ->
  d <> [] -> Forall nonempty_values d -> Forall no_tracking_key d ->
  Forall utf8_entry d ->
  distinct (map fst (lowered d)) = true ->
  normalize_link chk (b +:+ "?" +:+ lower (urlencode d))
  = b +:+ "?" +:+ lower (urlencode d).
Proof.
  intros Hb Hss Hlow Hd Hne Hnt Hu Hdist.
  set (lq := lower (urlencode d)). set (y := b +:+ "?" +:+ lq).
  assert (Hlq : all_chars query_char lq = true).
  { apply all_chars_lower; [exact query_char_lower|apply urlencode_chars]. }
  assert (Htq : truthy lq = true).
  { unfold lq. rewrite truthy_lower. now apply truthy_urlencode. }
  assert (Hy : all_chars canonical_char y = true).
  { unfold y. rewrite !all_chars_app.
    rewrite (all_chars_impl plain_char canonical_char b
               (fun c H => proj2 (proj2 (proj2 (proj2 (proj2 (proj2
                  (plain_char_facts c H))))))) Hb).
    rewrite (all_chars_impl query_char canonical_char lq
               (fun c H => proj2 (query_char_facts c H)) Hlq).
    reflexivity. }
  assert (Hc0 : lstrip_where C0_control_or_space y = y).
  { apply all_chars_lstrip. revert Hy. apply all_chars_impl.
    intros c H. apply (canonical_char_facts c H). }
  assert (Hstrip : strip y = y).
  { unfold strip. rewrite all_chars_lstrip, all_chars_rstrip_fixed;
      try reflexivity; revert Hy; apply all_chars_impl;
      intros c H; apply (canonical_char_facts c H). }
  assert (Hrm : remove_where unsafe_url_byte y = y).
  { apply all_chars_remove. revert Hy. apply all_chars_impl.
    intros c H. apply (canonical_char_facts c H). }
  assert (Hcolon : contains ":" y = false).
  { apply (all_chars_contains (fun c => negb (char_eqb c ":"))); [|reflexivity].
    revert Hy. apply all_chars_impl. intros c H. apply (canonical_char_facts c H). }
  assert (Hhash : contains "#" y = false).
  { apply (all_chars_contains (fun c => negb (char_eqb c "#"))); [|reflexivity].
    revert Hy. apply all_chars_impl. intros c H. apply (canonical_char_facts c H). }
  assert (Hquest : partition "?" y = (b, Some lq)).
  { apply partition_app.
    apply (all_chars_contains (fun c => negb (char_eqb c "?"))); [|reflexivity].
    revert Hb. apply all_chars_impl. intros c H. apply (plain_char_facts c H). }
  assert (Hsemi : contains ";" b = false).
  { apply (all_chars_contains (fun c => negb (char_eqb c ";"))); [|reflexivity].
    revert Hb. apply all_chars_impl. intros c H. apply (plain_char_facts c H). }
  assert (Hssy : startswith "//" y = false) by now apply startswith_slashes_base.
  assert (Hty : truthy y = true) by (unfold y; now destruct b).
  assert (Hprep : prepare y = y).
  { unfold prepare. now rewrite Hstrip, Hssy. }
  assert (Hparse : urlparse chk y
                   = Some {| scheme := ""; netloc := ""; path := b; params := "";
                             query := lq; fragment := "" |}).
  { unfold urlparse, urlsplit. rewrite Hc0, Hrm. unfold split_scheme.
    rewrite (partition_absent ":" y Hcolon), Hssy.
    cbn [contains andb orb negb].
    rewrite (partition_absent "#" y Hhash), Hquest.
    cbn [scheme path in_list uses_params existsb String.eqb orb andb].
    rewrite Hsemi. reflexivity. }
  unfold normalize_link. rewrite Hty, Hprep, Hparse. cbn [negb].
  rewrite assemble_eq. unfold host_and_path.
  rewrite hostname_without_netloc by reflexivity.
  cbn [query path default from_option]. rewrite append_nil.
  unfold lq at 1 2. rewrite parse_qs_encoded by assumption.
  rewrite remove_tracking_lowered by assumption.
  assert (Ht2 : truthy (urlencode (lowered d)) = true).
  { apply truthy_urlencode; [destruct d; [contradiction|discriminate]|].
    now apply lowered_values. }
  cbv zeta. rewrite Ht2.
  rewrite trim_no_slash by (apply query_end; [exact Ht2|apply urlencode_chars]).
  rewrite !lower_app, Hlow, lower_urlencode_lowered. reflexivity.
Qed.

Lemma plain_base_canonical hp :
  plain_base hp = true ->
  plain_text (lower (trim_trailing_slash hp)) = true.
Proof.
  unfold plain_base. intros H. apply andb_true_iff in H as [Hc Hss].
  apply negb_true_iff in Hss.
  assert (Ht : all_chars plain_char (lower (trim_trailing_slash hp)) = true).
  { apply all_chars_lower; [intros c Hp; apply (plain_char_facts c Hp)|].
    unfold trim_trailing_slash. destruct (_ && _); [|exact Hc].
    now apply all_chars_rstrip. }
  unfold plain_text. repeat (apply andb_true_iff; split).
  - revert Ht. apply all_chars_impl. intros c Hp. apply (plain_char_facts c Hp).
  - apply String.eqb_eq, all_chars_lstrip. revert Ht. apply all_chars_impl.
    intros c Hp. apply (plain_char_facts c Hp).
  - apply String.eqb_eq, all_chars_rstrip_fixed. revert Ht. apply all_chars_impl.
    intros c Hp. apply (plain_char_facts c Hp).
  - apply negb_true_iff. rewrite startswith_slashes_lower.
    unfold trim_trailing_slash. destruct (_ && _); [|exact Hss].
    now apply startswith_rstrip.
Qed.

(** C9, amended. [normalize_link] is idempotent on every link that
    [urlparse] accepts, whose host and path hold no control character,
    no whitespace and none of [: ? # ;] and do not start with [//], and
    whose query keys left after the tracking parameters are removed stay
    pairwise distinct in lower case. *)
Theorem normalize_link_idempotent chk x parsed :
  urlparse chk (prepare x) = Some parsed ->
  plain_base (host_and_path parsed) = true ->
  distinct (map fst (lowered (remove_tracking (parse_qs (query parsed))))) = true ->
  normalize_link chk (normalize_link chk x) = normalize_link chk x.
Proof.
  intros Hp Hplain Hdist.
  destruct (truthy x) eqn:Hx;
    [|apply truthy_false in Hx; subst x; reflexivity].
  set (kept := remove_tracking (parse_qs (query parsed))) in *.
  destruct kept as [|kv kept'] eqn:Hk.
  - (* no parameter left: the canonical form is the trimmed base *)
    apply normalize_link_fixed; try apply normalize_link_shape.
    unfold normalize_link. rewrite Hx, Hp. cbn [negb].
    rewrite assemble_eq. fold kept. rewrite Hk. cbn.
    now apply plain_base_canonical.
  - assert (Hne : Forall nonempty_values kept)
      by apply kept_values, parse_qs_values.
    assert (Hnt : Forall no_tracking_key kept) by apply kept_no_tracking.
    assert (Hu : Forall utf8_entry kept) by apply kept_text, parse_qs_text.
    assert (Hy : normalize_link chk x
                 = lower (host_and_path parsed) +:+ "?" +:+ lower (urlencode kept)).
    { unfold normalize_link. rewrite Hx, Hp. cbn [negb].
      rewrite assemble_eq. fold kept. cbv zeta.
      assert (Ht : truthy (urlencode kept) = true).
      { apply truthy_urlencode; [rewrite Hk; discriminate|exact Hne]. }
      rewrite Ht.
      rewrite trim_no_slash by (apply query_end; [exact Ht|apply urlencode_chars]).
      now rewrite !lower_app. }
    rewrite Hy. rewrite <- Hk in Hdist.
    unfold plain_base in Hplain. apply andb_true_iff in Hplain as [Hc Hss].
    apply negb_true_iff in Hss.
    apply normalize_link_query_fixed; try assumption.
    + apply all_chars_lower; [intros c H; apply (plain_char_facts c H)|exact Hc].
    + now rewrite startswith_slashes_lower.
    + apply lower_idem.
    + rewrite Hk. discriminate.
Qed.

Lemma normalize_link_idempotent_witness :
  let x := "HTTPS://Example.com/News/?id=5&utm_source=feed&Tag=a+b&x=%2F#top" in
  normalize_link accept_all (normalize_link accept_all x)
  = normalize_link accept_all x.
Proof.
  apply (normalize_link_idempotent accept_all _
           {| scheme := "https"; netloc := "Example.com"; path := "/News/";
              params := ""; query := "id=5&utm_source=feed&Tag=a+b&x=%2F";
              fragment := "top" |});
    reflexivity.
Defined.

Example canonical_form_with_query :
  normalize_link accept_all
    "HTTPS://Example.com/News/?id=5&utm_source=feed&Tag=a+b&x=%2F#top"
  = "example.com/news/?id=5&tag=a+b&x=%2f".
Proof. vm_compute. reflexivity. Qed.

(* ================================================================= *)
(** ** More on the ingest pipeline *)

Lemma decide_item_accounted st it :
  accounted (decide_item st it) = S (accounted st).
Proof.
  unfold accounted, decide_item.
  repeat case_match; simpl; rewrite ?length_app; simpl; lia.
Qed.

Lemma dedupe_accounted l : forall st,
  accounted (dedupe l st) = (accounted st + length l)%nat.
Proof.
  induction l as [|it l IH]; intros st; simpl; [lia|].
  unfold dedupe in *. rewrite IH, decide_item_accounted. lia.
Qed.

(** X1. Every entry that passes the title-or-link filter is accounted
    for exactly once: it is queued for insertion, or counted under
    [duplicateLink], or counted under [duplicateTitleDate]. *)
Theorem every_entry_is_inserted_or_counted chk items existing_rows :
  let fin := decisions chk items existing_rows in
  length (normalize_entries chk items)
  = (length (to_insert fin) + duplicateLink (skipped fin)
     + duplicateTitleDate (skipped fin))%nat.
Proof.
  intros fin. subst fin. unfold decisions.
  pose proof (dedupe_accounted (normalize_entries chk items)
                (build_sets chk existing_rows)) as H.
  unfold accounted in H. rewrite H.
  rewrite build_sets_to_insert, build_sets_skipped. simpl. lia.
Qed.

Lemma decide_item_sublist st it :
  exists kept, kept `sublist_of` [it]
    /\ to_insert (decide_item st it) = to_insert st ++ (row_of <$> kept).
Proof.
  unfold decide_item. repeat case_match; simpl;
    first [ (exists [it]; split; [reflexivity|reflexivity])
          | (exists []; split; [apply sublist_nil_l|now rewrite app_nil_r]) ].
Qed.

Lemma dedupe_sublist l : forall st,
  exists kept, kept `sublist_of` l
    /\ to_insert (dedupe l st) = to_insert st ++ (row_of <$> kept).
Proof.
  induction l as [|it l IH]; intros st; simpl.
  - exists []. split; [reflexivity|now rewrite app_nil_r].
  - destruct (decide_item_sublist st it) as (k1 & Hk1 & E1).
    unfold dedupe in *. destruct (IH (decide_item st it)) as (k2 & Hk2 & E2).
    exists (k1 ++ k2). split.
    + change (it :: l) with ([it] ++ l). now apply sublist_app.
    + rewrite E2, E1, fmap_app, app_assoc. reflexivity.
Qed.

(** X2. The rows of the batch insert are rows of feed entries, in feed
    order: the deduplication drops entries, it never reorders, repeats
    or invents one. *)
Theorem inserted_rows_follow_the_feed chk items existing_rows :
  exists kept,
    kept `sublist_of` normalize_entries chk items
    /\ to_insert (decisions chk items existing_rows) = row_of <$> kept.
Proof.
  unfold decisions.
  destruct (dedupe_sublist (normalize_entries chk items)
              (build_sets chk existing_rows)) as (kept & Hs & E).
  exists kept. split; [exact Hs|].
  now rewrite E, build_sets_to_insert.
Qed.

Lemma fetch_pages_trace fuel st : forall j acc tr,
  exists k,
    snd (fetch_pages fuel st (j * page_size) acc tr)
    = tr ++ map page_select (seq j (S k)).
Proof.
  induction fuel as [|fuel IH]; intros j acc tr; cbn [fetch_pages];
    destruct (select_range st (j * page_size)) as [?|[|r batch]]; cbn [snd];
    try destruct (_ <? _)%nat; cbn [snd];
    try (exists 0%nat; reflexivity).
  destruct (IH (S j) (acc ++ r :: batch) (tr ++ [page_select j])) as [k Hk].
  change (S j * page_size)%nat with (page_size + j * page_size)%nat in Hk.
  rewrite (Nat.add_comm page_size) in Hk.
  exists (S k). unfold page_select at 1 in Hk. rewrite Hk, <- app_assoc.
  reflexivity.
Qed.

Lemma load_existing_trace st :
  exists k, snd (load_existing st) = map page_select (seq 0 (S k)).
Proof.
  unfold load_existing.
  destruct (fetch_pages_trace (length (table st)) st 0%nat [] []) as [k Hk].
  change (0 * page_size)%nat with 0%nat in Hk.
  destruct (fetch_pages _ st 0%nat [] []) as [rows tr]. exists k. exact Hk.
Qed.

(** X3. What [store_news] does to the store.  It makes no call at all
    when the feed request fails, the feed is not ok, or no entry has a
    title or a link.  In every other run it selects the pages of rank 0
    to [k] of the table, in this order and each once, for some [k]; then
    it makes one insert, of the rows the deduplication queued, when
    there is such a row, and no other call. *)
Theorem store_calls_of_a_run chk feed st :
  let tr := snd (store_news chk feed st) in
  ((forall status_code items,
      feed = FeedResponse true status_code items ->
      normalize_entries chk items = []) ->
   tr = [])
  /\ (forall status_code items,
        feed = FeedResponse true status_code items ->
        normalize_entries chk items <> [] ->
        let rows := to_insert (decisions chk items (fst (load_existing st))) in
        exists k,
          tr = map page_select (seq 0 (S k))
               ++ match rows with [] => [] | _ => [Insert rows] end).
Proof.
  unfold store_news. split.
  - intros Hnone.
    destruct feed as [err|ok status_code items]; [reflexivity|].
    destruct ok; [|reflexivity]. cbn [negb].
    destruct (length items =? 0)%nat; [reflexivity|].
    now rewrite (Hnone status_code items eq_refl).
  - intros status_code items -> Hsome. cbn [negb].
    assert (Hitems : (length items =? 0)%nat = false).
    { destruct items; [now contradiction Hsome|reflexivity]. }
    rewrite Hitems.
    destruct (normalize_entries chk items) as [|it its] eqn:En;
      [now contradiction Hsome|].
    cbn [length Nat.eqb].
    destruct (load_existing_trace st) as [k Hk].
    destruct (load_existing st) as [existing tr]. cbn [fst snd] in *.
    exists k. subst tr.
    destruct (to_insert (decisions chk items existing)) as [|r rows];
      cbn [length Nat.eqb snd]; [now rewrite app_nil_r|].
    destruct (insert_exec st (r :: rows)); reflexivity.
Qed.

Lemma store_calls_of_a_run_witness :
  exists k,
    snd (store_news accept_all (FeedResponse true 200 tracked_twice)
           (sample_store []))
    = map page_select (seq 0 (S k)) ++ [Insert [first_of_tracked_twice]].
Proof.
  apply (proj2 (store_calls_of_a_run accept_all
                  (FeedResponse true 200 tracked_twice) (sample_store []))
           200 tracked_twice eq_refl).
  vm_compute. discriminate.
Defined.

(** X4. When no select raises, the paging loop ends and hands the
    deduplication every row of the table, whatever the table's size. *)
Theorem existing_rows_are_all_read st :
  (forall offset, select_error st offset = None) ->
  fst (load_existing st) = table st.
Proof. apply load_existing_all. Qed.

Lemma existing_rows_are_all_read_witness :
  fst (load_existing (sample_store [linked_row])) = [linked_row].
Proof.
  apply (existing_rows_are_all_read (sample_store [linked_row])).
  intros offset. reflexivity.
Defined.

Lemma fetch_pages_raises st err j : forall fuel offset acc tr,
  select_error st (offset + j * page_size)%nat = Some err ->
  (forall i, (i < j)%nat -> select_error st (offset + i * page_size)%nat = None) ->
  (offset + j * page_size <= length (table st))%nat ->
  (j <= fuel)%nat ->
  fst (fetch_pages fuel st offset acc tr) = None.
Proof.
  pose proof page_size_pos as Hp.
  induction j as [|j IH]; intros fuel offset acc tr Herr Hok Hlen Hfuel.
  - rewrite Nat.mul_0_l, Nat.add_0_r in Herr.
    destruct fuel; cbn [fetch_pages]; unfold select_range; rewrite Herr; reflexivity.
  - destruct fuel as [|fuel]; [lia|].
    assert (H0 : select_error st offset = None).
    { rewrite <- (Hok 0%nat) by lia. f_equal. lia. }
    assert (Hfull : length (take page_size (drop offset (table st))) = page_size).
    { rewrite length_take, length_drop. lia. }
    cbn [fetch_pages]. unfold select_range. rewrite H0.
    destruct (take page_size (drop offset (table st))) as [|r batch] eqn:E;
      [simpl in Hfull; lia|].
    rewrite Hfull, Nat.ltb_irrefl.
    apply (IH fuel (offset + page_size)%nat).
    + rewrite <- Herr. f_equal. lia.
    + intros i Hi. rewrite <- (Hok (S i)) by lia. f_equal. lia.
    + lia.
    + lia.
Qed.

(** X5. A select that raises on any page the loop reaches makes the
    deduplication work from no row at all: the rows of the pages already
    read are dropped with it. *)
Theorem failed_page_discards_all_rows st err j :
  select_error st (j * page_size)%nat = Some err ->
  (forall i, (i < j)%nat -> select_error st (i * page_size)%nat = None) ->
  (j * page_size <= length (table st))%nat ->
  fst (load_existing st) = [].
Proof.
  intros Herr Hok Hlen. unfold load_existing.
  pose proof page_size_pos as Hp.
  pose proof (fetch_pages_raises st err j (length (table st)) 0%nat [] []
                Herr Hok Hlen ltac:(nia)) as H.
  destruct (fetch_pages _ st 0%nat [] []) as [rows tr].
  simpl in H. subst rows. reflexivity.
Qed.

Lemma failed_page_discards_all_rows_witness :
  fst (load_existing failing_store) = [].
Proof.
  apply (failed_page_discards_all_rows failing_store "timeout" 0).
  - reflexivity.
  - intros i Hi. lia.
  - simpl. lia.
Defined.

(* ================================================================= *)
(** ** The title normalizer *)

Lemma words_from_blank cur s :
  all_chars is_space s = true -> words_from cur s = words_from cur EmptyString.
Proof.
  revert cur. induction s as [|c r IH]; intros cur; [reflexivity|].
  simpl. intros H. apply andb_true_iff in H as [Hc Hr]. rewrite Hc.
  destruct cur; rewrite (IH None Hr); reflexivity.
Qed.

Lemma rstrip_where_empty p s :
  rstrip_where p s = EmptyString -> all_chars p s = true.
Proof.
  induction s as [|c r IH]; simpl; [reflexivity|].
  destruct (rstrip_where p r); [|discriminate].
  destruct (p c); [|discriminate]. intros _. now rewrite IH.
Qed.

Lemma words_from_cons cur c r :
  words_from cur (String c r)
  = if is_space c then
      match cur with
      | Some w => w :: words_from None r
      | None => words_from None r
      end
    else
      words_from (Some (match cur with
                        | Some w => w +:+ String c EmptyString
                        | None => String c EmptyString
                        end)) r.
Proof. reflexivity. Qed.

Lemma words_from_rstrip s : forall cur,
  words_from cur (rstrip_where is_space s) = words_from cur s.
Proof.
  induction s as [|c r IH]; intros cur; [reflexivity|].
  cbn [rstrip_where].
  destruct (rstrip_where is_space r) as [|c' r'] eqn:E.
  - pose proof (rstrip_where_empty _ _ E) as Hr.
    destruct (is_space c) eqn:Ec.
    + symmetry. apply words_from_blank. simpl. now rewrite Ec, Hr.
    + simpl. rewrite Ec. now rewrite (words_from_blank _ r Hr).
  - rewrite (words_from_cons cur c (String c' r')), (words_from_cons cur c r).
    destruct (is_space c); [destruct cur|]; now rewrite IH.
Qed.

Lemma words_from_lstrip s :
  words_from None (lstrip_where is_space s) = words_from None s.
Proof.
  induction s as [|c r IH]; [reflexivity|].
  simpl. destruct (is_space c) eqn:E; [exact IH|].
  simpl. now rewrite E.
Qed.

Lemma split_whitespace_strip s :
  split_whitespace (strip s) = split_whitespace s.
Proof.
  unfold split_whitespace, strip. now rewrite words_from_rstrip, words_from_lstrip.
Qed.

Lemma split_whitespace_blank s :
  strip s = EmptyString -> split_whitespace s = [].
Proof. intros H. rewrite <- split_whitespace_strip, H. reflexivity. Qed.

(** Surrounding whitespace does not change the normalized title. *)
Lemma normalize_title_strip t : normalize_title (strip t) = normalize_title t.
Proof.
  unfold normalize_title.
  destruct (truthy t) eqn:Ht; simpl.
  - destruct (truthy (strip t)) eqn:Hs; simpl.
    + now rewrite split_whitespace_strip.
    + apply truthy_false in Hs. now rewrite (split_whitespace_blank t Hs).
  - apply truthy_false in Ht. subst t. reflexivity.
Qed.

Lemma is_word_snoc w c :
  is_space c = false ->
  (w = EmptyString \/ is_word w = true) ->
  is_word (w +:+ String c EmptyString) = true.
Proof.
  intros Hc Hw. unfold is_word. rewrite all_chars_app. simpl. rewrite Hc. simpl.
  destruct Hw as [->|Hw]; [reflexivity|].
  unfold is_word in Hw. apply andb_true_iff in Hw as [Ht Ha].
  rewrite Ha. destruct w; [discriminate|reflexivity].
Qed.

(** Every piece [split] gives is a word. *)
Lemma words_from_words s : forall cur,
  match cur with Some w => is_word w = true | None => True end ->
  Forall (fun w => is_word w = true) (words_from cur s).
Proof.
  induction s as [|c r IH]; intros cur Hcur; simpl.
  - destruct cur; constructor; [assumption|constructor].
  - destruct (is_space c) eqn:Ec.
    + destruct cur; [constructor; [assumption|]|]; now apply IH.
    + apply IH. destruct cur as [w|].
      * apply is_word_snoc; auto.
      * apply (is_word_snoc EmptyString c Ec). now left.
Qed.

Lemma split_whitespace_words s :
  Forall (fun w => is_word w = true) (split_whitespace s).
Proof. now apply words_from_words. Qed.

Lemma words_from_word w : forall a s,
  all_chars (fun c => negb (is_space c)) w = true ->
  words_from (Some a) (w +:+ s) = words_from (Some (a +:+ w)) s.
Proof.
  induction w as [|c w IH]; intros a s H.
  - now rewrite append_nil, append_empty_r.
  - simpl in H. apply andb_true_iff in H as [Hc Hw]. apply negb_true_iff in Hc.
    rewrite append_cons. simpl. rewrite Hc. rewrite (IH _ _ Hw).
    now rewrite append_assoc.
Qed.

Lemma words_from_first w s :
  is_word w = true -> words_from None (w +:+ s) = words_from (Some w) s.
Proof.
  unfold is_word. intros H. apply andb_true_iff in H as [Ht Ha].
  destruct w as [|c w]; [discriminate|].
  simpl in Ha. apply andb_true_iff in Ha as [Hc Hw]. apply negb_true_iff in Hc.
  rewrite append_cons. simpl. rewrite Hc. now rewrite (words_from_word w _ s Hw).
Qed.

(** Splitting single-spaced words gives the words back. *)
Lemma split_join_words ws :
  Forall (fun w => is_word w = true) ws ->
  split_whitespace (join " " ws) = ws.
Proof.
  unfold split_whitespace.
  induction 1 as [|w ws Hw Hws IH]; [reflexivity|].
  destruct ws as [|w' ws'].
  - simpl. rewrite <- (append_empty_r w) at 1.
    now rewrite (words_from_first w "" Hw).
  - change (join " " (w :: w' :: ws')) with (w +:+ " " +:+ join " " (w' :: ws')).
    rewrite (words_from_first w _ Hw).
    rewrite append_cons, append_nil, words_from_cons.
    change (is_space " ") with true. cbv iota. now rewrite IH.
Qed.

Lemma rstrip_where_app p a t :
  truthy t = true -> all_chars (fun c => negb (p c)) t = true ->
  rstrip_where p (a +:+ t) = a +:+ t.
Proof.
  intros Ht Ha. induction a as [|c a IH].
  - rewrite append_nil. now apply all_chars_rstrip_fixed.
  - rewrite append_cons. simpl. rewrite IH.
    destruct (a +:+ t) eqn:E; [|reflexivity].
    destruct a; [rewrite append_nil in E; subst t|]; discriminate.
Qed.

Lemma join_last sep w ws :
  exists a t, join sep (w :: ws) = a +:+ t /\ In t (w :: ws).
Proof.
  revert w. induction ws as [|w' ws IH]; intros w.
  - exists EmptyString, w. split; [reflexivity|now left].
  - destruct (IH w') as (a & t & E & Hin).
    exists (w +:+ sep +:+ a), t. split; [|now right].
    change (join sep (w :: w' :: ws)) with (w +:+ sep +:+ join sep (w' :: ws)).
    now rewrite E, !append_assoc.
Qed.

(** Single-spaced words have no whitespace to strip. *)
Lemma strip_join_words ws :
  Forall (fun w => is_word w = true) ws ->
  strip (join " " ws) = join " " ws.
Proof.
  intros H. destruct ws as [|w ws]; [reflexivity|].
  unfold strip.
  assert (Hl : lstrip_where is_space (join " " (w :: ws)) = join " " (w :: ws)).
  { inversion H as [|? ? Hw _]; subst. unfold is_word in Hw.
    apply andb_true_iff in Hw as [Ht Ha].
    destruct w as [|c w]; [discriminate|].
    simpl in Ha. apply andb_true_iff in Ha as [Hc _]. apply negb_true_iff in Hc.
    destruct ws; simpl; [|rewrite append_cons; simpl]; now rewrite Hc. }
  rewrite Hl.
  destruct (join_last " " w ws) as (a & t & E & Hin).
  rewrite E. rewrite Forall_forall in H.
  specialize (H t (proj2 (list_elem_of_In _ _) Hin)).
  unfold is_word in H. apply andb_true_iff in H as [Ht Ha].
  now apply rstrip_where_app.
Qed.

Lemma is_space_lower c : is_space (lower_char c) = is_space c.
Proof. each_char c. Qed.

Lemma is_word_lower w : is_word w = true -> is_word (lower w) = true.
Proof.
  unfold is_word. intros H. apply andb_true_iff in H as [Ht Ha].
  rewrite truthy_lower, Ht. simpl.
  apply all_chars_lower; [|exact Ha].
  intros c Hc. now rewrite is_space_lower.
Qed.

(** The normalized title, word by word. *)
Lemma normalize_title_spec raw :
  normalize_title raw = join " " (map lower (split_whitespace raw))
  /\ Forall (fun w => is_word w = true) (map lower (split_whitespace raw)).
Proof.
  pose proof (split_whitespace_words raw) as Hw.
  split.
  - unfold normalize_title. destruct (truthy raw) eqn:Ht; simpl.
    + rewrite (strip_join_words _ Hw).
      change " " with (lower " "). now rewrite lower_join.
    + apply truthy_false in Ht. subst raw. reflexivity.
  - apply Forall_forall. intros w Hin.
    apply list_elem_of_fmap in Hin as (w0 & -> & Hin).
    rewrite Forall_forall in Hw. apply is_word_lower. now apply Hw.
Qed.

(** X6. The normalized title is the words of the title, in lower case,
    joined by single spaces: runs of whitespace collapse, surrounding
    whitespace goes, and no character other than whitespace is lost. *)
Theorem normalize_title_words raw :
  normalize_title raw = join " " (map lower (split_whitespace raw))
  /\ Forall (fun w => is_word w = true) (map lower (split_whitespace raw)).
Proof. apply normalize_title_spec. Qed.

(** X7. [normalize_title] is idempotent. *)
Theorem normalize_title_idempotent raw :
  normalize_title (normalize_title raw) = normalize_title raw.
Proof.
  destruct (normalize_title_spec raw) as [E Hw].
  destruct (normalize_title_spec (normalize_title raw)) as [E2 _].
  rewrite E2, E. rewrite (split_join_words _ Hw).
  rewrite map_map. f_equal. apply map_ext. intros w. apply lower_idem.
Qed.

Lemma split_whitespace_lower s :
  split_whitespace (lower s) = map lower (split_whitespace s).
Proof.
  unfold split_whitespace.
  assert (H : forall cur,
             words_from (lower <$> cur) (lower s) = map lower (words_from cur s)).
  { induction s as [|c r IH]; intros cur; [now destruct cur|].
    simpl. rewrite is_space_lower. destruct (is_space c).
    - destruct cur; simpl; now rewrite <- (IH None).
    - rewrite <- IH. f_equal. destruct cur; simpl; [|reflexivity].
      now rewrite lower_app. }
  exact (H None).
Qed.

(** X8. The normalized title does not depend on letter case nor on
    surrounding whitespace. *)
Theorem normalize_title_ignores_case_and_margins raw :
  normalize_title (lower raw) = normalize_title raw
  /\ normalize_title (strip raw) = normalize_title raw.
Proof.
  split; [|apply normalize_title_strip].
  rewrite (proj1 (normalize_title_spec (lower raw))),
          (proj1 (normalize_title_spec raw)).
  rewrite split_whitespace_lower, map_map. f_equal.
  apply map_ext. intros w. apply lower_idem.
Qed.

(* ================================================================= *)
(** ** Running the ingest twice *)

Section SecondRun.

Variable chk : string -> bool.

Lemma normalize_entry_key_consistent e it :
  normalize_entry chk e = Some it -> key_consistent it.
Proof.
  unfold normalize_entry, key_consistent.
  destruct (truthy (str_or_empty (e_title e)) || truthy (str_or_empty (e_link e)));
    [|discriminate].
  intros [= <-]. unfold row_key.
  cbn [title_date_key row_of row_title row_date title date].
  rewrite normalize_title_strip.
  match goal with |- context [if truthy ?p then _ else _] =>
    destruct (truthy p) end; [reflexivity|discriminate].
Qed.

Lemma normalize_entries_key_consistent items :
  Forall key_consistent (normalize_entries chk items).
Proof.
  unfold normalize_entries. induction items as [|e items IH]; simpl.
  - constructor.
  - destruct (normalize_entry chk e) eqn:E; simpl; [|exact IH].
    constructor; [|exact IH]. eapply normalize_entry_key_consistent; eauto.
Qed.

Lemma decide_item_keys st it k :
  k ∈ existing_title_date_set (decide_item st it)
  <-> k ∈ existing_title_date_set st
      \/ (k = title_date_key it /\ truthy (norm_link it) = false
          /\ truthy (title_date_key it) = true
          /\ title_date_key it ∉ existing_title_date_set st).
Proof.
  unfold decide_item.
  destruct (truthy (norm_link it)) eqn:Hl.
  - destruct (negb (bool_decide _)); simpl; split; auto;
      intros [?|(_ & [=] & _)]; auto.
  - destruct (truthy (title_date_key it)) eqn:Hk; simpl.
    + destruct (bool_decide (title_date_key it ∈ existing_title_date_set st)) eqn:Hin;
        simpl.
      * apply bool_decide_eq_true in Hin. split; auto.
        intros [?|(_ & _ & _ & Hn)]; [assumption|contradiction].
      * apply bool_decide_eq_false in Hin.
        rewrite elem_of_union, elem_of_singleton. split.
        -- intros [->|?]; [right; auto|left; auto].
        -- intros [?|(-> & _)]; auto.
    + split; auto. intros [?|(_ & _ & [=] & _)]; auto.
Qed.

(** After its round an item is covered, and a covered item stays so. *)
Lemma decide_item_covers st it :
  covered (existing_links_set (decide_item st it))
          (existing_title_date_set (decide_item st it)) it.
Proof.
  unfold covered.
  destruct (truthy (norm_link it)) eqn:Hl.
  - left. split; [reflexivity|].
    apply decide_item_links. apply truthy_true in Hl.
    destruct (decide (norm_link it ∈ existing_links_set st)); auto.
  - right. split; [reflexivity|].
    destruct (truthy (title_date_key it)) eqn:Hk; [|now left].
    right. apply decide_item_keys.
    destruct (decide (title_date_key it ∈ existing_title_date_set st)); auto.
Qed.

Lemma covered_mono (l1 l2 k1 k2 : gset string) it :
  l1 ⊆ l2 -> k1 ⊆ k2 -> covered l1 k1 it -> covered l2 k2 it.
Proof.
  intros Hl Hk [[? ?]|[? [?|?]]]; [left|right|right]; split; auto.
Qed.

Lemma decide_item_grows st it :
  existing_links_set st ⊆ existing_links_set (decide_item st it)
  /\ existing_title_date_set st ⊆ existing_title_date_set (decide_item st it).
Proof.
  split; intros x Hx; [apply decide_item_links|apply decide_item_keys]; auto.
Qed.

Lemma dedupe_grows l : forall st,
  existing_links_set st ⊆ existing_links_set (dedupe l st)
  /\ existing_title_date_set st ⊆ existing_title_date_set (dedupe l st).
Proof.
  induction l as [|it l IH]; intros st; simpl; [split; reflexivity|].
  unfold dedupe in *. destruct (IH (decide_item st it)) as [H1 H2].
  destruct (decide_item_grows st it) as [G1 G2].
  split; etrans; eauto.
Qed.

Lemma dedupe_covers l : forall st,
  Forall (covered (existing_links_set (dedupe l st))
                  (existing_title_date_set (dedupe l st))) l.
Proof.
  induction l as [|it l IH]; intros st; simpl; [constructor|].
  unfold dedupe in *. constructor; [|apply IH].
  destruct (dedupe_grows l (decide_item st it)) as [G1 G2].
  eapply covered_mono; [exact G1|exact G2|apply decide_item_covers].
Qed.

Lemma decide_item_traced l0 k0 st it :
  link_consistent chk it -> key_consistent it -> recognisable it = true ->
  traced chk l0 k0 st -> traced chk l0 k0 (decide_item st it).
Proof.
  intros Hlc Hkc Hrec [HL HK]. split.
  - intros n Hn. apply decide_item_links in Hn as [Hn|[-> Hne]].
    + destruct (HL n Hn) as [?|(r & Hr & ? & ?)]; [now left|].
      right. exists r. split; [|auto].
      unfold decide_item. repeat case_match; simpl; try assumption;
        apply elem_of_app; now left.
    + destruct (decide (norm_link it ∈ existing_links_set st)) as [Hin|Hin].
      * destruct (HL _ Hin) as [?|(r & Hr & ? & ?)]; [now left|].
        right. exists r. split; [|auto].
        unfold decide_item. repeat case_match; simpl; try assumption;
          apply elem_of_app; now left.
      * right. exists (row_of it). split; [|split; [exact Hlc|exact Hne]].
        unfold decide_item. apply truthy_true in Hne. rewrite Hne.
        rewrite bool_decide_eq_false_2 by assumption. simpl.
        apply elem_of_app. right. apply elem_of_cons. now left.
  - intros k Hk. apply decide_item_keys in Hk as [Hk|(-> & Hl & Ht & Hin)].
    + destruct (HK k Hk) as [?|(r & Hr & ? & ?)]; [now left|].
      right. exists r. split; [|auto].
      unfold decide_item. repeat case_match; simpl; try assumption;
        apply elem_of_app; now left.
    + right. exists (row_of it). split; [|split].
      * unfold decide_item. rewrite Hl, Ht.
        rewrite bool_decide_eq_false_2 by assumption. simpl.
        apply elem_of_app. right. apply elem_of_cons. now left.
      * symmetry. now apply Hkc.
      * unfold recognisable in Hrec. rewrite Hl, Ht in Hrec. exact Hrec.
Qed.

Lemma dedupe_traced l0 k0 l : forall st,
  Forall (link_consistent chk) l -> Forall key_consistent l ->
  Forall (fun it => recognisable it = true) l ->
  traced chk l0 k0 st -> traced chk l0 k0 (dedupe l st).
Proof.
  induction l as [|it l IH]; intros st H1 H2 H3 Ht; simpl; [exact Ht|].
  inversion H1; inversion H2; inversion H3; subst.
  unfold dedupe in *. apply IH; try assumption.
  now apply decide_item_traced.
Qed.

(** A covered item is skipped, and leaves the sets as they are. *)
Lemma decide_item_covered st it :
  covered (existing_links_set st) (existing_title_date_set st) it ->
  to_insert (decide_item st it) = to_insert st
  /\ existing_links_set (decide_item st it) = existing_links_set st
  /\ existing_title_date_set (decide_item st it) = existing_title_date_set st.
Proof.
  unfold covered, decide_item.
  intros [[Hl Hin]|[Hl [Hk|Hin]]]; rewrite Hl.
  - rewrite bool_decide_eq_true_2 by assumption. simpl. auto.
  - rewrite Hk. simpl. auto.
  - rewrite bool_decide_eq_true_2 by assumption. simpl.
    rewrite andb_false_r. simpl. auto.
Qed.

Lemma dedupe_covered l : forall st,
  Forall (covered (existing_links_set st) (existing_title_date_set st)) l ->
  to_insert (dedupe l st) = to_insert st.
Proof.
  induction l as [|it l IH]; intros st H; simpl; [reflexivity|].
  inversion H as [|? ? Hit Hl]; subst.
  destruct (decide_item_covered st it Hit) as (E1 & E2 & E3).
  unfold dedupe in *. rewrite IH; [exact E1|]. now rewrite E2, E3.
Qed.

Lemma stored_as_sets r s :
  stored_as r s ->
  stored_link chk s = normalize_link chk (row_link r)
  /\ stored_key s = row_key r /\ has_title_or_date s = row_keyed r.
Proof.
  intros (Ht & Hl & Hd).
  unfold stored_link, stored_key, has_title_or_date, row_key, row_keyed.
  now rewrite Ht, Hl, Hd.
Qed.

(** X9. Running the ingest again on the same feed, once the rows of the
    first run are stored, inserts nothing, provided every entry is
    recognisable: it has a link, or no publication date, or a title or a
    date that is not blank. *)
Theorem second_run_inserts_nothing items existing_rows stored :
  Forall (fun it => recognisable it = true) (normalize_entries chk items) ->
  Forall2 stored_as (to_insert (decisions chk items existing_rows)) stored ->
  to_insert (decisions chk items (existing_rows ++ stored)) = [].
Proof.
  intros Hrec Hst.
  set (normalized := normalize_entries chk items) in *.
  set (s0 := build_sets chk existing_rows).
  set (fin := dedupe normalized s0).
  assert (Htr : traced chk (existing_links_set s0) (existing_title_date_set s0) fin).
  { apply dedupe_traced; try assumption.
    - apply normalize_entries_consistent.
    - apply normalize_entries_key_consistent.
    - split; intros x Hx; now left. }
  destruct Htr as [HL HK].
  destruct (fold_add_existing_sets chk existing_rows initial_state) as [K0 L0].
  destruct (fold_add_existing_sets chk (existing_rows ++ stored) initial_state)
    as [K1 L1].
  fold (build_sets chk existing_rows) in K0, L0. fold s0 in K0, L0.
  fold (build_sets chk (existing_rows ++ stored)) in K1, L1.
  set (s1 := build_sets chk (existing_rows ++ stored)) in *.
  assert (Hin : forall r, r ∈ to_insert fin -> exists s, s ∈ stored /\ stored_as r s).
  { intros r Hr. apply list_elem_of_lookup in Hr as [i Hi].
    destruct (Forall2_lookup_l _ _ _ _ _ Hst Hi) as (s & Hs & Has).
    exists s. split; [|exact Has]. apply list_elem_of_lookup. eauto. }
  assert (Hsub : existing_links_set fin ⊆ existing_links_set s1
                 /\ existing_title_date_set fin ⊆ existing_title_date_set s1).
  { split.
    - intros n Hn. apply L1. right.
      destruct (HL n Hn) as [H0|(r & Hr & Hrl & Hne)].
      + apply L0 in H0 as [H0|(r & Hr & ? & ?)];
          [simpl in H0; now apply elem_of_empty in H0|].
        exists r. split; [apply elem_of_app; now left|auto].
      + destruct (Hin r Hr) as (s & Hs & Has).
        destruct (stored_as_sets r s Has) as (E1 & _ & _).
        exists s. split; [apply elem_of_app; now right|]. split; congruence.
    - intros k Hk. apply K1. right.
      destruct (HK k Hk) as [H0|(r & Hr & Hrk & Hkd)].
      + apply K0 in H0 as [H0|(r & Hr & ? & ?)];
          [simpl in H0; now apply elem_of_empty in H0|].
        exists r. split; [apply elem_of_app; now left|auto].
      + destruct (Hin r Hr) as (s & Hs & Has).
        destruct (stored_as_sets r s Has) as (_ & E2 & E3).
        exists s. split; [apply elem_of_app; now right|]. split; congruence. }
  unfold decisions. fold normalized. fold s1.
  rewrite dedupe_covered; [apply build_sets_to_insert|].
  destruct Hsub as [S1 S2].
  eapply Forall_impl; [apply (dedupe_covers normalized s0)|].
  intros it Hc. eapply covered_mono; [exact S1|exact S2|exact Hc].
Qed.

End SecondRun.

Lemma second_run_inserts_nothing_witness :
  to_insert (decisions accept_all tracked_twice
               ([] ++ [stored_of_new 0 first_of_tracked_twice])) = [].
Proof.
  apply (second_run_inserts_nothing accept_all tracked_twice []
           [stored_of_new 0 first_of_tracked_twice]).
  - vm_compute. repeat constructor.
  - vm_compute. repeat constructor.
Defined.

(* ================================================================= *)
(** ** More on the link normalizer *)

Lemma rstrip_where_keep p c r :
  p c = false -> rstrip_where p (String c r) = String c (rstrip_where p r).
Proof. intros H. simpl. destruct (rstrip_where p r); now rewrite ?H. Qed.

Lemma prepare_http r :
  prepare ("http://" +:+ r) = "http://" +:+ rstrip_where is_space r.
Proof.
  unfold prepare, strip. cbn [append lstrip_where].
  change ("http://" +:+ r) with
    (String "h" (String "t" (String "t" (String "p" (String ":"
       (String "/" (String "/" r))))))).
  cbn [lstrip_where]. change (is_space "h") with false. cbv iota.
  rewrite !rstrip_where_keep by reflexivity. reflexivity.
Qed.

Lemma prepare_https r :
  prepare ("https://" +:+ r) = "https://" +:+ rstrip_where is_space r.
Proof.
  unfold prepare, strip.
  change ("https://" +:+ r) with
    (String "h" (String "t" (String "t" (String "p" (String "s" (String ":"
       (String "/" (String "/" r)))))))).
  cbn [lstrip_where]. change (is_space "h") with false. cbv iota.
  rewrite !rstrip_where_keep by reflexivity. reflexivity.
Qed.

Lemma prepare_relative r :
  prepare ("//" +:+ r) = "https://" +:+ rstrip_where is_space r.
Proof.
  unfold prepare, strip.
  change ("//" +:+ r) with (String "/" (String "/" r)).
  cbn [lstrip_where]. change (is_space "/") with false. cbv iota.
  rewrite !rstrip_where_keep by reflexivity. reflexivity.
Qed.

(** X10. A protocol-relative link is read as an https link:
    [//host/path] and [https://host/path] have the same normal form. *)
Theorem protocol_relative_is_https chk r :
  normalize_link chk ("//" +:+ r) = normalize_link chk ("https://" +:+ r).
Proof.
  unfold normalize_link. rewrite prepare_relative, prepare_https. reflexivity.
Qed.

Lemma lstrip_where_keep p c r :
  p c = false -> lstrip_where p (String c r) = String c r.
Proof. intros H. simpl. now rewrite H. Qed.

Lemma remove_where_keep p c r :
  p c = false -> remove_where p (String c r) = String c (remove_where p r).
Proof. intros H. simpl. now rewrite H. Qed.

Lemma split_scheme_slashes x :
  split_scheme (String "/" x) = (EmptyString, String "/" x).
Proof.
  unfold split_scheme. destruct (partition ":" (String "/" x)) as [pre [rest|]];
    [|reflexivity].
  cbn [first_is_alpha]. change (is_alpha "/") with false.
  now rewrite andb_false_r.
Qed.

Lemma urlsplit_slashes_scheme chk x p :
  urlsplit chk ("//" +:+ x) = Some p -> scheme p = EmptyString.
Proof.
  unfold urlsplit.
  change ("//" +:+ x) with (String "/" (String "/" x)).
  rewrite lstrip_where_keep by reflexivity.
  rewrite !remove_where_keep by reflexivity.
  rewrite split_scheme_slashes.
  repeat case_match; simplify_eq/=; intros; simplify_eq/=; reflexivity.
Qed.

Lemma urlsplit_http chk x :
  urlsplit chk ("http://" +:+ x)
  = set_scheme "http" <$> urlsplit chk ("//" +:+ x).
Proof.
  unfold urlsplit.
  change ("http://" +:+ x) with
    (String "h" (String "t" (String "t" (String "p" (String ":"
       (String "/" (String "/" x))))))).
  change ("//" +:+ x) with (String "/" (String "/" x)).
  rewrite !lstrip_where_keep by reflexivity.
  rewrite !remove_where_keep by reflexivity.
  rewrite split_scheme_slashes.
  set (y := remove_where unsafe_url_byte x).
  change (split_scheme (String "h" (String "t" (String "t" (String "p" (String ":"
            (String "/" (String "/" y))))))))
    with ("http", String "/" (String "/" y)).
  cbv beta iota. repeat case_match; simplify_eq/=; reflexivity.
Qed.

Lemma urlsplit_https chk x :
  urlsplit chk ("https://" +:+ x)
  = set_scheme "https" <$> urlsplit chk ("//" +:+ x).
Proof.
  unfold urlsplit.
  change ("https://" +:+ x) with
    (String "h" (String "t" (String "t" (String "p" (String "s" (String ":"
       (String "/" (String "/" x)))))))).
  change ("//" +:+ x) with (String "/" (String "/" x)).
  rewrite !lstrip_where_keep by reflexivity.
  rewrite !remove_where_keep by reflexivity.
  rewrite split_scheme_slashes.
  set (y := remove_where unsafe_url_byte x).
  change (split_scheme (String "h" (String "t" (String "t" (String "p" (String "s"
            (String ":" (String "/" (String "/" y)))))))))
    with ("https", String "/" (String "/" y)).
  cbv beta iota. repeat case_match; simplify_eq/=; reflexivity.
Qed.

(** For a scheme that takes parameters, [urlparse] reads a link as it
    reads the link without its scheme. *)
Lemma urlparse_of_urlsplit chk s u x :
  in_list s uses_params = true ->
  urlsplit chk u = set_scheme s <$> urlsplit chk ("//" +:+ x) ->
  urlparse chk u = set_scheme s <$> urlparse chk ("//" +:+ x).
Proof.
  intros Hs E. unfold urlparse. rewrite E.
  destruct (urlsplit chk ("//" +:+ x)) as [r|] eqn:Er; [|reflexivity].
  rewrite (urlsplit_slashes_scheme chk x r Er).
  cbn [fmap option_fmap option_map set_scheme scheme path].
  rewrite Hs. change (in_list "" uses_params) with true. cbn [andb].
  destruct (contains ";" (path r)); [|reflexivity].
  destruct (splitparams (path r)). reflexivity.
Qed.

Lemma assemble_set_scheme s p : assemble (set_scheme s p) = assemble p.
Proof. reflexivity. Qed.

(** X11. When the link parses, its scheme does not matter: the http and
    the https form of a link have the same normal form. *)
Theorem http_and_https_agree chk r parsed :
  urlparse chk (prepare ("https://" +:+ r)) = Some parsed ->
  normalize_link chk ("http://" +:+ r) = normalize_link chk ("https://" +:+ r).
Proof.
  intros Hp. unfold normalize_link.
  rewrite prepare_https in Hp |- *. rewrite prepare_http.
  set (x := rstrip_where is_space r) in *.
  rewrite (urlparse_of_urlsplit chk "https" _ x eq_refl (urlsplit_https chk x)) in Hp |- *.
  rewrite (urlparse_of_urlsplit chk "http" _ x eq_refl (urlsplit_http chk x)).
  destruct (urlparse chk ("//" +:+ x)) as [p|]; [|discriminate].
  reflexivity.
Qed.

Lemma http_and_https_agree_witness :
  normalize_link accept_all "http://Example.com/a/"
  = normalize_link accept_all "https://Example.com/a/".
Proof.
  eapply (http_and_https_agree accept_all "Example.com/a/").
  vm_compute. reflexivity.
Defined.

Lemma is_upper_lower c : is_upper (lower_char c) = false.
Proof. each_char c. Qed.

Lemma lower_no_upper s : all_chars (fun c => negb (is_upper c)) (lower s) = true.
Proof.
  induction s as [|c r IH]; [reflexivity|].
  simpl. now rewrite is_upper_lower, IH.
Qed.

(** X12. A normalized link holds no upper-case letter, and surrounding
    whitespace of the input does not change it; a blank input gives the
    empty link. *)
Theorem normalize_link_case_and_margins chk raw :
  all_chars (fun c => negb (is_upper c)) (normalize_link chk raw) = true
  /\ normalize_link chk (strip raw) = normalize_link chk raw
  /\ (strip raw = EmptyString -> normalize_link chk raw = EmptyString).
Proof.
  split; [|split].
  - unfold normalize_link. destruct (negb (truthy raw)); [reflexivity|].
    destruct (urlparse chk (prepare raw)); apply lower_no_upper.
  - apply normalize_link_strip.
  - intros H. rewrite <- normalize_link_strip, H. reflexivity.
Qed.

Lemma normalize_link_case_and_margins_witness :
  normalize_link accept_all "   " = EmptyString.
Proof.
  apply (proj2 (proj2 (normalize_link_case_and_margins accept_all "   "))).
  reflexivity.
Defined.

(* ================================================================= *)
(** ** Links that differ in their query *)

Lemma contains_app c a b : contains c (a +:+ b) = contains c a || contains c b.
Proof.
  induction a as [|x a IH]; [reflexivity|].
  rewrite append_cons. simpl. now rewrite IH, orb_assoc.
Qed.

Lemma partition_found c u t pre rest :
  partition c u = (pre, Some rest) ->
  partition c (u +:+ t) = (pre, Some (rest +:+ t)).
Proof.
  revert pre. induction u as [|x u IH]; intros pre; [discriminate|].
  rewrite append_cons. simpl. destruct (char_eqb x c).
  - now intros [= <- <-].
  - destruct (partition c u) as [h o] eqn:E. intros [= <- ->].
    now rewrite (IH h eq_refl).
Qed.

Lemma partition_missing c u t :
  contains c u = false ->
  partition c (u +:+ t) = (u +:+ fst (partition c t), snd (partition c t)).
Proof.
  induction u as [|x u IH]; intros H.
  - rewrite !append_nil. now destruct (partition c t).
  - rewrite !append_cons. simpl in *.
    destruct (char_eqb x c); [discriminate|]. simpl in H.
    now rewrite (IH H).
Qed.

Lemma partition_some_contains c u pre rest :
  partition c u = (pre, Some rest) ->
  u = pre +:+ String c rest /\ contains c pre = false.
Proof.
  revert pre. induction u as [|x u IH]; intros pre; [discriminate|].
  simpl. destruct (char_eqb x c) eqn:Ex.
  - intros [= <- <-]. unfold char_eqb in Ex. apply Ascii.eqb_eq in Ex.
    subst. now rewrite append_nil.
  - destruct (partition c u) as [h o]. intros [= <- ->].
    destruct (IH h eq_refl) as [-> Hc]. rewrite append_cons.
    simpl. now rewrite Ex, Hc.
Qed.

Lemma partition_none_contains c u pre :
  partition c u = (pre, None) -> contains c u = false /\ pre = u.
Proof.
  revert pre. induction u as [|x u IH]; intros pre; [now intros [= <-]|].
  simpl. destruct (char_eqb x c); [discriminate|].
  destruct (partition c u) as [h o]. intros [= <- ->].
  destruct (IH h eq_refl) as [-> ->]. auto.
Qed.

(** The scheme of a text does not depend on a query put after it. *)
Lemma split_scheme_query u q :
  contains "?" u = false ->
  split_scheme (u +:+ String "?" q)
  = (fst (split_scheme u), snd (split_scheme u) +:+ String "?" q).
Proof.
  intros Hq. unfold split_scheme.
  destruct (partition ":" u) as [pre [rest|]] eqn:E.
  - rewrite (partition_found _ _ _ _ _ E).
    assert (Hf : first_is_alpha (u +:+ String "?" q) = first_is_alpha u).
    { destruct u; [discriminate|reflexivity]. }
    rewrite Hf. now destruct (_ && _ && _).
  - destruct (partition_none_contains _ _ _ E) as [Hc ->].
    rewrite (partition_missing ":" u _ Hc).
    destruct (partition ":" (String "?" q)) as [h o] eqn:E2.
    assert (Hh : exists h', h = String "?" h').
    { simpl in E2. destruct (partition ":" q). injection E2 as <- <-. eauto. }
    destruct Hh as [h' ->]. cbn [fst snd].
    assert (Hs : all_chars scheme_char (u +:+ String "?" h') = false).
    { rewrite all_chars_app. simpl. now rewrite andb_false_r. }
    rewrite Hs, andb_false_r. now destruct o.
Qed.

Lemma split_scheme_rest u c :
  contains c u = false -> contains c (snd (split_scheme u)) = false.
Proof.
  intros H. unfold split_scheme.
  destruct (partition ":" u) as [pre [rest|]] eqn:E; [|exact H].
  destruct (_ && _ && _); [|exact H]. cbn [snd].
  destruct (partition_some_contains _ _ _ _ E) as [-> _].
  rewrite contains_app in H. apply orb_false_iff in H as [_ H].
  simpl in H. now apply orb_false_iff in H as [_ H].
Qed.

Lemma span_until_delim p r c t :
  p c = true ->
  span_until p (r +:+ String c t)
  = (fst (span_until p r), snd (span_until p r) +:+ String c t).
Proof.
  intros Hc. induction r as [|x r IH].
  - rewrite append_nil. simpl. now rewrite Hc.
  - rewrite append_cons. simpl. destruct (p x); [reflexivity|].
    rewrite IH. now destruct (span_until p r).
Qed.

Lemma span_until_rest p r c :
  contains c r = false -> contains c (snd (span_until p r)) = false.
Proof.
  induction r as [|x r IH]; [reflexivity|].
  simpl. destruct (p x); [auto|].
  intros H. apply orb_false_iff in H as [_ H].
  destruct (span_until p r). now apply IH.
Qed.

Lemma startswith_slashes_query b t :
  startswith "//" (b +:+ String "?" t) = startswith "//" b.
Proof.
  destruct (startswith "//" b) eqn:E.
  - now apply startswith_app.
  - now apply startswith_slashes_base.
Qed.

(** Reading a link with a query put after it: the same parts, and the
    query. *)
Lemma urlsplit_query chk u q :
  url_text u = true -> url_text q = true ->
  contains "?" u = false -> contains "#" u = false -> contains "#" q = false ->
  urlsplit chk (u +:+ String "?" q) = set_query q <$> urlsplit chk u
  /\ forall p, urlsplit chk u = Some p ->
       query p = EmptyString /\ contains "?" (path p) = false.
Proof.
  intros Hu Hq Hqu Hhu Hhq. unfold url_text in *.
  assert (Hall : all_chars (fun c => negb (C0_control_or_space c))
                   (u +:+ String "?" q) = true).
  { rewrite all_chars_app. simpl. now rewrite Hu, Hq. }
  assert (Hun : forall s, all_chars (fun c => negb (C0_control_or_space c)) s = true ->
                  all_chars (fun c => negb (unsafe_url_byte c)) s = true).
  { intros s. apply all_chars_impl. intros c. each_char c; discriminate. }
  unfold urlsplit.
  rewrite !all_chars_lstrip by assumption.
  rewrite !all_chars_remove by auto.
  rewrite (split_scheme_query u q Hqu).
  pose proof (split_scheme_rest u "?" Hqu) as Hr1.
  pose proof (split_scheme_rest u "#" Hhu) as Hr2.
  destruct (split_scheme u) as [sch rest]. cbn [fst snd] in *.
  rewrite startswith_slashes_query.
  assert (Hnl : exists nl url,
            (if startswith "//" rest
             then match rest with
                  | String _ (String _ r2) => span_until netloc_delim r2
                  | _ => (EmptyString, rest)
                  end
             else (EmptyString, rest)) = (nl, url)
            /\ (if startswith "//" rest
                then match rest +:+ String "?" q with
                     | String _ (String _ r2) => span_until netloc_delim r2
                     | _ => (EmptyString, rest +:+ String "?" q)
                     end
                else (EmptyString, rest +:+ String "?" q))
               = (nl, url +:+ String "?" q)
            /\ contains "?" url = false /\ contains "#" url = false).
  { destruct (startswith "//" rest) eqn:Ess.
    - destruct rest as [|c1 [|c2 r2]]; [discriminate Ess| |].
      { simpl in Ess. rewrite andb_false_r in Ess. discriminate Ess. }
      rewrite !append_cons.
      rewrite (span_until_delim netloc_delim r2 "?" q eq_refl).
      simpl in Hr1, Hr2.
      apply orb_false_iff in Hr1 as [_ Hr1]. apply orb_false_iff in Hr1 as [_ Hr1].
      apply orb_false_iff in Hr2 as [_ Hr2]. apply orb_false_iff in Hr2 as [_ Hr2].
      pose proof (span_until_rest netloc_delim r2 "?" Hr1).
      pose proof (span_until_rest netloc_delim r2 "#" Hr2).
      destruct (span_until netloc_delim r2) as [nl url].
      exists nl, url. auto.
    - exists EmptyString, rest. auto. }
  destruct Hnl as (nl & url & -> & -> & Hu1 & Hu2).
  assert (Hh : contains "#" (url +:+ String "?" q) = false).
  { rewrite contains_app. simpl. now rewrite Hu2, Hhq. }
  rewrite (partition_absent "#" _ Hh), (partition_absent "#" _ Hu2).
  rewrite (partition_absent "?" _ Hu1).
  replace (partition "?" (url +:+ String "?" q)) with (url, Some q)
    by (symmetry; now apply partition_app).
  destruct (_ || _); [split; [reflexivity|discriminate]|].
  destruct (_ && _); [split; [reflexivity|discriminate]|].
  split; [reflexivity|]. intros p [= <-]. auto.
Qed.

Lemma urlparse_query chk u q :
  url_text u = true -> url_text q = true ->
  contains "?" u = false -> contains "#" u = false -> contains "#" q = false ->
  urlparse chk (u +:+ String "?" q) = set_query q <$> urlparse chk u
  /\ forall p, urlparse chk u = Some p -> query p = EmptyString.
Proof.
  intros Hu Hq Hqu Hhu Hhq.
  destruct (urlsplit_query chk u q Hu Hq Hqu Hhu Hhq) as [E Hp].
  unfold urlparse. rewrite E.
  destruct (urlsplit chk u) as [r|]; [|split; [reflexivity|discriminate]].
  destruct (Hp r eq_refl) as [Hq0 _].
  cbn [fmap option_fmap option_map set_query scheme path].
  destruct (_ && _).
  - destruct (splitparams (path r)). split; [reflexivity|].
    now intros p [= <-].
  - split; [reflexivity|]. now intros p [= <-].
Qed.

Lemma prepare_query b q :
  url_text b = true -> url_text q = true ->
  prepare (b +:+ String "?" q) = prepare b +:+ String "?" q.
Proof.
  intros Hb Hq. unfold url_text in *.
  assert (Hsp : forall s, all_chars (fun c => negb (C0_control_or_space c)) s = true ->
                  all_chars (fun c => negb (is_space c)) s = true).
  { intros s. apply all_chars_impl. intros c. each_char c; discriminate. }
  assert (Hall : all_chars (fun c => negb (C0_control_or_space c))
                   (b +:+ String "?" q) = true).
  { rewrite all_chars_app. simpl. now rewrite Hb, Hq. }
  unfold prepare, strip.
  rewrite !all_chars_lstrip, !all_chars_rstrip_fixed by auto.
  rewrite startswith_slashes_query.
  destruct (startswith "//" b); [|reflexivity].
  now rewrite append_assoc.
Qed.

Lemma prepare_text b :
  url_text b = true -> contains "?" b = false -> contains "#" b = false ->
  url_text (prepare b) = true /\ contains "?" (prepare b) = false
  /\ contains "#" (prepare b) = false.
Proof.
  intros Hb Hq Hh. unfold url_text in *.
  assert (Hsp : all_chars (fun c => negb (is_space c)) b = true).
  { revert Hb. apply all_chars_impl. intros c. each_char c; discriminate. }
  unfold prepare, strip.
  rewrite all_chars_lstrip, all_chars_rstrip_fixed by auto.
  destruct (startswith "//" b); [|auto].
  rewrite all_chars_app, !contains_app, Hb, Hq, Hh. auto.
Qed.

(** Two parsed links that differ in their query only, one with queries
    that leave the same parameters, assemble to the same text. *)
Lemma assemble_set_query q1 q2 p :
  remove_tracking (parse_qs q1) = remove_tracking (parse_qs q2) ->
  assemble (set_query q1 p) = assemble (set_query q2 p).
Proof.
  intros H. unfold assemble. cbn [query set_query path].
  rewrite H. reflexivity.
Qed.

Lemma normalize_link_query chk b q parsed :
  url_text b = true -> url_text q = true ->
  contains "?" b = false -> contains "#" b = false -> contains "#" q = false ->
  urlparse chk (prepare b) = Some parsed ->
  normalize_link chk (b +:+ String "?" q)
  = lower (trim_trailing_slash (assemble (set_query q parsed)))
  /\ query parsed = EmptyString.
Proof.
  intros Hb Hq Hqb Hhb Hhq Hp.
  destruct (prepare_text b Hb Hqb Hhb) as (Hu & Hqu & Hhu).
  destruct (urlparse_query chk (prepare b) q Hu Hq Hqu Hhu Hhq) as [E Hq0].
  split; [|now apply Hq0].
  unfold normalize_link.
  assert (Ht : truthy (b +:+ String "?" q) = true) by now destruct b.
  rewrite Ht, prepare_query, E, Hp by assumption. reflexivity.
Qed.

(** X13. Tracking parameters do not tell two links apart: two links of
    ASCII text with the same text before the query, whose queries leave
    the same parameters once the tracking parameters are removed, have
    the same normal form.  The parameters of a query are what [parse_qs]
    reads: keys in the order of their first occurrence, each with its
    values in the order of the query, escapes decoded as UTF-8. *)
Theorem links_differing_in_tracking_agree chk b q1 q2 parsed :
  ascii_text b = true -> ascii_text q1 = true -> ascii_text q2 = true ->
  url_text b = true -> url_text q1 = true -> url_text q2 = true ->
  contains "?" b = false -> contains "#" b = false ->
  contains "#" q1 = false -> contains "#" q2 = false ->
  urlparse chk (prepare b) = Some parsed ->
  remove_tracking (parse_qs q1) = remove_tracking (parse_qs q2) ->
  normalize_link chk (b +:+ "?" +:+ q1) = normalize_link chk (b +:+ "?" +:+ q2).
Proof.
  intros _ _ _ Hb H1 H2 Hqb Hhb Hh1 Hh2 Hp Hsame.
  change ("?" +:+ q1) with (String "?" q1).
  change ("?" +:+ q2) with (String "?" q2).
  rewrite (proj1 (normalize_link_query chk b q1 parsed Hb H1 Hqb Hhb Hh1 Hp)).
  rewrite (proj1 (normalize_link_query chk b q2 parsed Hb H2 Hqb Hhb Hh2 Hp)).
  now rewrite (assemble_set_query q1 q2 parsed Hsame).
Qed.

Lemma links_differing_in_tracking_agree_witness :
  normalize_link accept_all "https://example.com/a?id=1&utm_source=x"
  = normalize_link accept_all "https://example.com/a?fbclid=zz&id=1".
Proof.
  eapply (links_differing_in_tracking_agree accept_all "https://example.com/a"
            "id=1&utm_source=x" "fbclid=zz&id=1");
    reflexivity.
Defined.

(** Escapes that are no UTF-8 are read as U+FFFD: [%E9] and [%EA] are
    one and the same key, whose values come in the order of the query,
    and that order tells the two links apart. *)
Example invalid_escapes_are_one_key :
  urlencode (parse_qs "%E9=1&%EA=2&%E9=3")
  = "%EF%BF%BD=1&%EF%BF%BD=2&%EF%BF%BD=3"
  /\ normalize_link accept_all "https://example.com/a?%E9=1&%EA=2&%E9=3"
     = "example.com/a?%ef%bf%bd=1&%ef%bf%bd=2&%ef%bf%bd=3"
  /\ normalize_link accept_all "https://example.com/a?%E9=1&%E9=3&%EA=2"
     = "example.com/a?%ef%bf%bd=1&%ef%bf%bd=3&%ef%bf%bd=2"
  /\ urlencode (parse_qs "a=%C3%A9&b=%E2%82%AC%E2%82")
     = "a=%C3%A9&b=%E2%82%AC%EF%BF%BD".
Proof. vm_compute. repeat split; reflexivity. Qed.

(** X14. A query made of tracking parameters only is as good as none:
    the link with it and the link without it have the same normal
    form. *)
Theorem tracking_only_query_is_ignored chk b q parsed :
  url_text b = true -> url_text q = true ->
  contains "?" b = false -> contains "#" b = false -> contains "#" q = false ->
  urlparse chk (prepare b) = Some parsed ->
  remove_tracking (parse_qs q) = [] ->
  normalize_link chk (b +:+ "?" +:+ q) = normalize_link chk b.
Proof.
  intros Hb Hq Hqb Hhb Hhq Hp Hnone.
  change ("?" +:+ q) with (String "?" q).
  destruct (normalize_link_query chk b q parsed Hb Hq Hqb Hhb Hhq Hp) as [E Hq0].
  rewrite E.
  assert (Ea : assemble (set_query q parsed) = assemble parsed).
  { unfold assemble. cbn [query set_query path]. now rewrite Hnone, Hq0. }
  rewrite Ea. unfold normalize_link. rewrite Hp.
  destruct (truthy b) eqn:Ht; [reflexivity|].
  apply truthy_false in Ht. subst b. simpl in Hp. injection Hp as <-.
  reflexivity.
Qed.

Lemma tracking_only_query_is_ignored_witness :
  normalize_link accept_all "https://example.com/a?utm_source=x&gclid=7"
  = normalize_link accept_all "https://example.com/a".
Proof.
  eapply (tracking_only_query_is_ignored accept_all "https://example.com/a"
            "utm_source=x&gclid=7");
    reflexivity.
Defined.

(* ================================================================= *)
(** ** Offset and limit *)

Lemma apply_offset_drop o rows :
  0 <= o -> apply_offset o rows = drop (Z.to_nat o) rows.
Proof.
  intros Ho. unfold apply_offset.
  destruct (Z.eqb_spec o 0) as [->|_]; [reflexivity|].
  now apply slice_from_drop.
Qed.

Lemma page_window l o rows :
  0 <= o -> 0 < l ->
  page l o rows = take (Z.to_nat l) (drop (Z.to_nat o) rows).
Proof.
  intros Ho Hl. unfold page.
  destruct (Z.eqb_spec l 0) as [?|_]; [lia|].
  unfold apply_limit. rewrite slice_to_take, apply_offset_drop by lia.
  reflexivity.
Qed.

(** X15. With a non-negative offset [o] and limit [l], the served rows
    are the first [l] of the selected rows that follow the first [o];
    a limit of 0 serves all the rows that follow the first [o]. *)
Theorem offset_then_limit l o rows :
  0 <= o -> 0 <= l ->
  page l o rows
  = if l =? 0 then drop (Z.to_nat o) rows
    else take (Z.to_nat l) (drop (Z.to_nat o) rows).
Proof.
  intros Ho Hl.
  destruct (Z.eqb_spec l 0) as [->|Hn].
  - unfold page. simpl. now apply apply_offset_drop.
  - apply page_window; lia.
Qed.

Lemma offset_then_limit_witness :
  page 2 1 sample_rows = take 2 (drop 1 sample_rows).
Proof. apply (offset_then_limit 2 1 sample_rows); lia. Defined.

(** X16. Paging loses and repeats nothing: the page at offset [o] and
    the page at offset [o + l], one after the other, are the page of
    twice the size at offset [o]. *)
Theorem consecutive_pages_tile l o rows :
  0 <= o -> 0 < l ->
  page l o rows ++ page l (o + l) rows = page (2 * l) o rows.
Proof.
  intros Ho Hl. rewrite !page_window by lia.
  replace (Z.to_nat (o + l)) with (Z.to_nat o + Z.to_nat l)%nat by lia.
  replace (Z.to_nat (2 * l)) with (Z.to_nat l + Z.to_nat l)%nat by lia.
  rewrite <- drop_drop. generalize (drop (Z.to_nat o) rows) as xs.
  intros xs. rewrite <- (take_drop (Z.to_nat l) (take (Z.to_nat l + Z.to_nat l) xs)).
  rewrite take_take, Nat.min_l by lia. f_equal.
  rewrite skipn_firstn_comm. f_equal. lia.
Qed.

Lemma consecutive_pages_tile_witness :
  page 1 1 sample_rows ++ page 1 (1 + 1) sample_rows = page (2 * 1) 1 sample_rows.
Proof. apply (consecutive_pages_tile 1 1 sample_rows); lia. Defined.

(* ================================================================= *)
(** ** The dates of the rows *)

Section RowDates.

Variable datetime : Type.
Variable feed_published : string -> option datetime.
Variable fromisoformat : string -> option datetime.
Variable dateutil_parse : string -> option datetime.
Variable tzinfo_is_none : datetime -> bool.
Variable utc_localize : datetime -> datetime.
Variable kolkata_strftime : datetime -> option string.

(** X17. The date of a row is never a naive one when it reaches
    [to_kolkata_date_str]: with a feed parser that gives UTC datetimes
    and a [localize] that gives aware ones, every parsed row date has a
    time zone, so that the day of the row is the Kolkata day of that
    very instant. *)
Theorem parsed_row_dates_are_aware date_str dt :
  (forall s d, feed_published s = Some d -> tzinfo_is_none d = false) ->
  (forall d, tzinfo_is_none (utc_localize d) = false) ->
  parse_row_date datetime feed_published fromisoformat dateutil_parse
    tzinfo_is_none utc_localize date_str = Some dt ->
  tzinfo_is_none dt = false
  /\ to_kolkata_date_str datetime tzinfo_is_none utc_localize
       kolkata_strftime dt = kolkata_strftime dt.
Proof.
  intros Hfeed Hloc Hp.
  assert (Hl : forall d, tzinfo_is_none
                 (localize_if_naive datetime tzinfo_is_none utc_localize d) = false).
  { intros d. unfold localize_if_naive.
    destruct (tzinfo_is_none d) eqn:E; [apply Hloc|exact E]. }
  assert (Ha : tzinfo_is_none dt = false).
  { unfold parse_row_date in Hp.
    destruct date_str as [s|]; [|discriminate].
    destruct (negb (truthy s)); [discriminate|].
    destruct (feed_published s) as [d|] eqn:Ef.
    { injection Hp as <-. eapply Hfeed, Ef. }
    destruct (fromisoformat (replace_Z s)) as [d|].
    { injection Hp as <-. apply Hl. }
    destruct (dateutil_parse s) as [d|]; [|discriminate].
    injection Hp as <-. apply Hl. }
  split; [exact Ha|]. unfold to_kolkata_date_str. now rewrite Ha.
Qed.

End RowDates.

Lemma parsed_row_dates_are_aware_witness :
  to_kolkata_date_str string (fun _ => false) (fun dt => dt)
    (fun dt => Some dt) "2024-01-01" = Some "2024-01-01".
Proof.
  apply (proj2 (parsed_row_dates_are_aware string sample_feed_published
                  sample_fromisoformat sample_dateutil (fun _ => false)
                  (fun dt => dt) (fun dt => Some dt)
                  (Some "2024-01-01T08:00:00Z") "2024-01-01"
                  (fun _ _ _ => eq_refl) (fun _ => eq_refl) eq_refl)).
Defined.

(* ================================================================= *)
(** ** The rows that are inserted *)

Lemma strip_if_str_idem v : strip (strip_if_str v) = strip_if_str v.
Proof. destruct v; try reflexivity. apply strip_idem. Qed.

Lemma normalize_entry_trimmed chk e it :
  normalize_entry chk e = Some it -> trimmed (row_of it).
Proof.
  unfold normalize_entry. destruct (_ || _); [|discriminate].
  intros [= <-]. unfold trimmed. simpl.
  rewrite !strip_idem, strip_if_str_idem. auto.
Qed.

Lemma normalize_entries_trimmed chk items :
  Forall (fun it => trimmed (row_of it)) (normalize_entries chk items).
Proof.
  unfold normalize_entries. induction items as [|e items IH]; simpl.
  - constructor.
  - destruct (normalize_entry chk e) as [it|] eqn:E; simpl; [|exact IH].
    constructor; [|exact IH]. eapply normalize_entry_trimmed, E.
Qed.

(** X18. No row goes to the store with whitespace around its title,
    link, description or date. *)
Theorem inserted_rows_are_trimmed chk items existing_rows :
  Forall trimmed (to_insert (decisions chk items existing_rows)).
Proof.
  unfold decisions.
  destruct (dedupe_sublist (normalize_entries chk items)
              (build_sets chk existing_rows)) as (kept & Hk & E).
  rewrite build_sets_to_insert in E. simpl in E. rewrite E.
  apply Forall_fmap, Forall_forall. intros it Hit.
  pose proof (normalize_entries_trimmed chk items) as Hall.
  rewrite Forall_forall in Hall. apply Hall.
  eapply elem_of_sublist; [exact Hit|exact Hk].
Qed.

Lemma extract_description_summary e s :
  e_summary e = PStr s -> truthy s = true -> extract_description e = PStr s.
Proof.
  intros E Hs. unfold extract_description. rewrite E.
  repeat (cbn [py_truth from_str_or_dict negb andb]; rewrite ?Hs).
  reflexivity.
Qed.

Lemma extract_description_description e s :
  py_truth (e_summary e) = false -> e_description e = PStr s ->
  truthy s = true -> extract_description e = PStr s.
Proof.
  intros E0 E Hs. unfold extract_description. rewrite E0, E.
  repeat (cbn [py_truth from_str_or_dict negb andb];
          change (truthy EmptyString) with false; rewrite ?Hs).
  reflexivity.
Qed.

(** X19. The description of an entry is its summary when the summary is
    a non-empty string, whatever [description], [content] and
    [subtitle] hold; and it is the [description] field when that is a
    non-empty string and the entry has no summary. *)
Theorem description_prefers_summary chk e it s :
  normalize_entry chk e = Some it -> truthy s = true ->
  (e_summary e = PStr s -> description it = strip s)
  /\ (py_truth (e_summary e) = false -> e_description e = PStr s ->
      description it = strip s).
Proof.
  unfold normalize_entry. destruct (_ || _); [|discriminate].
  intros [= <-] Hs. cbn [description]. split.
  - intros E. now rewrite (extract_description_summary e s E Hs).
  - intros E0 E. now rewrite (extract_description_description e s E0 E Hs).
Qed.

Lemma description_prefers_summary_witness :
  description described_item = strip " first ".
Proof.
  apply (proj1 (description_prefers_summary accept_all described_entry
                  described_item " first " eq_refl eq_refl)).
  reflexivity.
Defined.
